(** * dokdo: cross-association between a feature table and a target matrix

    Shallow embedding of [dokdo/api/cross_association.py] and
    [dokdo/api/utils.py].

    Numbers.  Python floats are modelled as exact rationals ([Q]); equality
    of computed numbers is [Qeq] ([==]).  NaN has no counterpart: the
    statistics are taken to return proper numbers.

    Libraries.  scipy's [pearsonr]/[spearmanr], numpy's [log10] and qiime2's
    artifact loading are code of other packages: they are the fields of the
    class [Libraries].  statsmodels' [multipletests] is modelled for
    [method='fdr_bh'] after its algorithm (argsort, division by the
    empirical-cdf factor, running minimum from the right, clipping at 1,
    scatter back); every other method name is a field of [Libraries]. *)

From Stdlib Require Import QArith Qminmax Lqa Ascii.
From stdpp Require Import base option list strings gmap sorting.

Local Open Scope string_scope.
Local Open Scope list_scope.
Local Open Scope nat_scope.

(** ** Exceptions and the error monad *)

Inductive exn : Type :=
  | TypeError (msg : string)
  | ValueError (msg : string)
  | KeyError (key : string)
  | NameError (name : string)
  | ZeroDivisionError
  | LibraryError (msg : string).

Inductive result (A : Type) : Type :=
  | Ok (a : A)
  | Raise (e : exn).
Arguments Ok {A} a.
Arguments Raise {A} e.

Global Instance result_ret : MRet result := λ A a, Ok a.
Global Instance result_bind : MBind result := λ A B f m,
  match m with Ok a => f a | Raise e => Raise e end.

(** ** Rationals: decidable order *)

Global Instance Qle_decision (x y : Q) : Decision (x <= y)%Q.
Proof.
  destruct (Qlt_le_dec y x) as [H|H]; [right|left]; [|exact H].
  intros Hle. exact (Qlt_not_le _ _ H Hle).
Defined.

Global Instance Qle_transitive : Transitive Qle := Qle_trans.
Global Instance Qle_reflexive : Reflexive Qle := Qle_refl.
Global Instance Qle_total : Total Qle.
Proof. intros x y. destruct (Qlt_le_dec x y); [left|right]; lra. Qed.

Definition Qnat (n : nat) : Q := inject_Z (Z.of_nat n).

(** The closed unit interval, where p-values live. *)
Definition in_unit (p : Q) : Prop := (0 <= p ∧ p <= 1)%Q.

(** ** statsmodels.stats.multitest

    [multipletests] is code of statsmodels, not of this repository.  The
    correction for ['fdr_bh'] is modelled from the specification ("sort
    ascending, adjusted p-value at rank k is the minimum over k' >= k of
    p_(k') * N / k', clipped, then mapped back to the original order"), in
    the steps statsmodels takes to compute it. *)

Module Multitest.

(** [np.argsort(pvals)]: the indices that sort the values ascending. *)
Definition by_value : relation (nat * Q) := λ a b, (a.2 <= b.2)%Q.

Definition argsort (pvals : list Q) : list nat :=
  (merge_sort by_value (imap (λ i p, (i, p)) pvals)).*1.

(** [np.take(pvals, ind)] *)
Definition take_at (pvals : list Q) (ind : list nat) : list Q :=
  (λ i, nth i pvals 0%Q) <$> ind.

(** [_ecdf(x)]: [np.arange(1, nobs+1) / float(nobs)] *)
Definition ecdf (nobs : nat) : list Q :=
  (λ k, Qnat k / Qnat nobs)%Q <$> seq 1 nobs.

(** [np.minimum.accumulate(a)]: [out[0] = a[0]],
    [out[i] = minimum(out[i-1], a[i])]. *)
Fixpoint accumulate_from (acc : Q) (a : list Q) : list Q :=
  match a with
  | [] => []
  | x :: t => let m := Qmin acc x in m :: accumulate_from m t
  end.

Definition minimum_accumulate (a : list Q) : list Q :=
  match a with
  | [] => []
  | x :: t => x :: accumulate_from x t
  end.

(** [a[a > 1] = 1] *)
Definition clip1 (x : Q) : Q := if decide (x <= 1)%Q then x else 1%Q.

Definition clip_above_one (a : list Q) : list Q := clip1 <$> a.

(** [pvals_sorted / ecdffactor] *)
Definition pvals_corrected_raw (pvals_sorted : list Q) : list Q :=
  let ecdffactor := ecdf (length pvals_sorted) in
  zip_with Qdiv pvals_sorted ecdffactor.

(** Modelled from the spec: the Benjamini-Hochberg correction of the
    sorted p-values, [fdrcorrection(pvals, method='indep',
    is_sorted=True)[1]] of statsmodels, which is not under src/. *)
Definition fdrcorrection (pvals_sorted : list Q) : list Q :=
  let pvals_corrected :=
    rev (minimum_accumulate (rev (pvals_corrected_raw pvals_sorted))) in
  clip_above_one pvals_corrected.

(** [out = np.empty_like(vals); out[ind] = vals] *)
Definition scatter (ind : list nat) (vals : list Q) : list Q :=
  foldl (λ out iv, <[iv.1 := iv.2]> out)
        (replicate (length vals) 0%Q) (zip ind vals).

(** Modelled from the spec: [multipletests(pvals, method=method)[1]] of
    statsmodels, which is not under src/.  [other] stands for the
    procedures other than Benjamini-Hochberg; an empty sequence has no
    correction ([1./ntests] divides by zero). *)
Definition multipletests
    (other : string → list Q → result (list Q))
    (pvals : list Q) (method : string) : result (list Q) :=
  let sortind := argsort pvals in
  let pvals_sorted := take_at pvals sortind in
  let ntests := length pvals_sorted in
  if decide (ntests = 0) then Raise ZeroDivisionError (* 1./ntests *)
  else if decide (method = "fdr_bh") then
    let pvals_corrected := clip_above_one (fdrcorrection pvals_sorted) in
    Ok (scatter sortind pvals_corrected)
  else other method pvals.

End Multitest.

(** ** The correction as the specification words it *)

Module BH.

(** [p_(k') * N / k'] for the 1-indexed rank [k']. *)
Definition scaled (sorted : list Q) (k' : nat) : Q :=
  (nth (k' - 1) sorted 0 * Qnat (length sorted) / Qnat k')%Q.

(** Minimum of [f k, f (k+1), ..., f (k+n)]. *)
Fixpoint min_from (f : nat → Q) (k n : nat) : Q :=
  match n with
  | O => f k
  | S n' => Qmin (min_from f (S k) n') (f k)
  end.

Definition clip01 (x : Q) : Q := Qmax 0 (Qmin x 1).

(** Adjusted p-value at rank [k] (1-indexed). *)
Definition adjusted_at_rank (sorted : list Q) (k : nat) : Q :=
  clip01 (min_from (scaled sorted) k (length sorted - k)).

End BH.

(** ** Data frames *)

(** A numeric [pandas.DataFrame]: the row labels and the labelled columns,
    each column holding one value per row. *)
Record DataFrame : Type := {
  index : list string;
  series : list (string * list Q)
}.

Definition columns (df : DataFrame) : list string := (series df).*1.

(** What [df[label]] evaluates to: a [Series] when one column carries the
    label, a frame of all of them when several do. *)
Inductive selection : Type :=
  | Series (v : list Q)
  | SubFrame (vs : list (list Q)).

Definition getitem (df : DataFrame) (label : string) : result selection :=
  match filter (λ c : string * list Q, c.1 = label) (series df) with
  | [] => Raise (KeyError label)
  | [c] => Ok (Series c.2)
  | cs => Ok (SubFrame cs.*2)
  end.

(** [df.applymap(f)] *)
Definition applymap (f : Q → Q) (df : DataFrame) : DataFrame :=
  {| index := index df;
     series := (λ c : string * list Q, (c.1, f <$> c.2)) <$> series df |}.

(** The rows of a frame, one list of values per row label. *)
Definition rows_of (df : DataFrame) : list (list Q) :=
  imap (λ r _, (λ c : string * list Q, nth r c.2 0%Q) <$> series df)
       (index df).

(** [df.apply(f, axis=1, result_type='broadcast')]: [f] is called on each
    row in turn and its values are put back under the same labels. *)
Definition apply_rows_broadcast
    (f : list Q → result (list Q)) (df : DataFrame) : result DataFrame :=
  rs ← mapM f (rows_of df);
  Ok {| index := index df;
        series := imap (λ j (c : string * list Q),
                          (c.1, (λ r, nth j r 0%Q) <$> rs)) (series df) |}.

(** ** Code of other packages *)

Class Libraries : Type := {
  (** [qiime2.Artifact] objects, [a.view(pd.DataFrame)] and
      [Artifact.load(path)] *)
  Artifact : Type;
  Artifact_view : Artifact → result DataFrame;
  Artifact_load : string → result Artifact;
  (** [np.log10] *)
  np_log10 : Q → Q;
  (** [scipy.stats.pearsonr], [scipy.stats.spearmanr]: the coefficient and
      the p-value, or an exception *)
  pearsonr : selection → selection → result (Q * Q);
  spearmanr : selection → selection → result (Q * Q);
  (** [multipletests] for the methods other than ['fdr_bh'] *)
  multipletests_other : string → list Q → result (list Q)
}.

(** ** Module namespaces *)

(** What a module-level name is bound to. *)
Inductive binding : Type :=
  | PyModule (name : string)
  | PyClass (name : string)
  | Statistic (f : selection → selection → result (Q * Q))
  | Function (name : string).

(** Evaluation of a global name: [NameError] when the module does not bind
    it. *)
Definition load_global
    (globals : list (string * binding)) (name : string) : result binding :=
  match list_find (λ b, b.1 = name) globals with
  | Some (_, b) => Ok b.2
  | None => Raise (NameError ("name '" +:+ name +:+ "' is not defined"))
  end.

(** Calling a bound object on one row of a frame.  None of the objects the
    two modules bind is a function of one row. *)
Definition call_on_row (b : binding) (x : list Q)
    : result (list Q) :=
  match b with
  | PyModule _ => Raise (TypeError "'module' object is not callable")
  | PyClass _ => Raise (TypeError "__init__() takes no row")
  | Statistic _ => Raise (TypeError "missing 1 required positional argument")
  | Function _ => Raise (TypeError "missing required positional arguments")
  end.

(** Truth value of an optional string: [None] and [''] are false. *)
Definition truthy (v : option string) : bool :=
  match v with
  | None => false
  | Some s => negb (String.eqb s "")
  end.

(** A value that is none of the three method names the code compares
    with. *)
Definition unrecognized (normalize : option string) : Prop :=
  normalize ≠ Some "log10" ∧ normalize ≠ Some "clr" ∧
  normalize ≠ Some "zscore".

(** [f"{v}"] *)
Definition format (v : option string) : string :=
  match v with
  | None => "None"
  | Some s => s
  end.

(** ** Result tables *)

(** One row of the cross-association table, under its five column names. *)
Record Row : Type := {
  taxon : string;
  target : string;
  corr : Q;
  pval : Q;
  adjp : Q
}.

(** A table: the column names in order, and the rows with their index
    labels. *)
Record Table : Type := {
  header : list string;
  body : list (nat * Row)
}.

(** [df.melt(var_name=.., value_name=.., ignore_index=False)] of a matrix
    given by rows: one block per column in column order, the row labels
    kept as the index. *)
Definition melt (idx cols : list string) (m : list (list Q))
    : list (string * string * Q) :=
  mjoin (imap (λ j c,
           zip_with (λ i (row : list Q), (i, c, nth j row 0%Q)) idx m) cols).

(** The distinct labels in ascending order. *)
Definition sorted_labels (l : list string) : list string :=
  merge_sort (λ a b, String.leb a b) (remove_dups l).

(** [df.pivot(index=.., columns=.., values=..)]: a grid addressed by
    (index label, column label). *)
Record Pivot (V : Type) : Type := {
  p_index : list string;
  p_columns : list string;
  p_cells : gmap (string * string) V
}.
Arguments p_index {V} _.
Arguments p_columns {V} _.
Arguments p_cells {V} _.

Definition pivot {V} (df : list (nat * Row))
    (idx col : Row → string) (val : Row → V) : result (Pivot V) :=
  let keys := (λ r : nat * Row, (idx r.2, col r.2)) <$> df in
  if decide (NoDup keys) then
    Ok {| p_index := sorted_labels (keys.*1);
          p_columns := sorted_labels (keys.*2);
          p_cells := list_to_map
                       ((λ r : nat * Row, ((idx r.2, col r.2), val r.2)) <$> df) |}
  else Raise (ValueError "Index contains duplicate entries, cannot reshape").

(** [grid.applymap(f)] *)
Definition pivot_applymap {V W} (f : V → W) (g : Pivot V) : Pivot W :=
  {| p_index := p_index g; p_columns := p_columns g;
     p_cells := f <$> p_cells g |}.

(** A cell of a boolean grid; a missing cell compares false. *)
Definition cell_true (g : Pivot bool) (i c : string) : bool :=
  default false (p_cells g !! (i, c)).

(** [sig.sum(axis=1)] and [sig.sum(axis=0)] *)
Definition sum_axis1 (g : Pivot bool) : list (string * Z) :=
  (λ i, (i, Z.of_nat (length (filter (λ c, cell_true g i c) (p_columns g)))))
  <$> p_index g.

Definition sum_axis0 (g : Pivot bool) : list (string * Z) :=
  (λ c, (c, Z.of_nat (length (filter (λ i, cell_true g i c) (p_index g)))))
  <$> p_columns g.

(** [s[s >= nsig].index.to_list()] *)
Definition survivors (s : list (string * Z)) (nsig : Z) : list string :=
  (filter (λ e : string * Z, (nsig ≤ e.2)%Z) s).*1.

(** [df[df[col].isin(labels)]] *)
Definition keep_isin (col : Row → string) (labels : list string)
    (df : list (nat * Row)) : list (nat * Row) :=
  filter (λ r : nat * Row, col r.2 ∈ labels) df.

(** Lines 135-142 of [cross_association_table]: the body of [if nsig:]. *)
Definition significance_filter (df : list (nat * Row)) (alpha : Q) (nsig : Z)
    : result (list (nat * Row)) :=
  g ← pivot df taxon target adjp;
  let sig := pivot_applymap (λ v, bool_decide (v <= alpha)%Q) g in
  let s := sum_axis1 sig in
  let taxon_survivors := survivors s nsig in
  let s := sum_axis0 sig in
  let target_survivors := survivors s nsig in
  let df := keep_isin taxon taxon_survivors df in
  let df := keep_isin target target_survivors df in
  Ok df.

(** The significance counts as the specification words them: the number
    of rows of a taxon (of a target) whose adjusted p-value is at most
    [alpha]. *)
Definition taxon_count (df : list (nat * Row)) (alpha : Q) (t : string) : Z :=
  Z.of_nat (length (filter
    (λ r : nat * Row, taxon r.2 = t ∧ (adjp r.2 <= alpha)%Q) df)).

Definition target_count (df : list (nat * Row)) (alpha : Q) (g : string) : Z :=
  Z.of_nat (length (filter
    (λ r : nat * Row, target r.2 = g ∧ (adjp r.2 <= alpha)%Q) df)).

(** The (taxon, target) pair of a row. *)
Definition pair_of (r : nat * Row) : string * string :=
  (taxon r.2, target r.2).

(** The pairs of the Cartesian product in the order [melt] lists them:
    column by column, the index labels within each. *)
Definition grid (idx cols : list string) : list (string * string) :=
  c ← cols; (λ i, (i, c)) <$> idx.

(** [df.sort_values('pval')]: the rows in ascending order of [pval].  pandas
    leaves the order among equal values open; merge sort gives one. *)
Definition by_pval : relation (nat * Row) := λ a b, (pval a.2 <= pval b.2)%Q.

Definition sort_values_pval (df : list (nat * Row)) : list (nat * Row) :=
  merge_sort by_pval df.

(** [df.reset_index(drop=True)] *)
Definition reset_index_drop (df : list (nat * Row)) : list (nat * Row) :=
  imap (λ i (r : nat * Row), (i, r.2)) df.

(** [df[name] = values]: a new column goes last, an existing one keeps its
    place. *)
Definition set_column (hdr : list string) (name : string) : list string :=
  if decide (name ∈ hdr) then hdr else hdr ++ [name].

(** ** dokdo/api/cross_association.py *)

Module CrossAssociation.
Section with_libraries.
Context {L : Libraries}.

(** The values the [artifact] argument can take. *)
Inductive pyvalue : Type :=
| AnArtifact (a : Artifact)
| AStr (s : string)
| AFrame (df : DataFrame)
| AnObject (type_repr : string).

(** The names the module binds: its imports and its three functions. *)
Definition module_globals : list (string * binding) :=
[("np", PyModule "numpy"); ("pd", PyModule "pandas");
 ("sns", PyModule "seaborn"); ("plt", PyModule "matplotlib.pyplot");
 ("spearmanr", Statistic spearmanr); ("pearsonr", Statistic pearsonr);
 ("multi", PyModule "statsmodels.stats.multitest");
 ("Artifact", PyClass "qiime2.Artifact");
 ("Metadata", PyClass "qiime2.Metadata");
 ("cross_association_table", Function "cross_association_table");
 ("cross_association_heatmap", Function "cross_association_heatmap");
 ("cross_association_regplot", Function "cross_association_regplot")].

(** Lines 89-96: the feature table as a frame. *)
Definition load_feats (artifact : pyvalue) : result DataFrame :=
match artifact with
| AnArtifact a => Artifact_view a
| AStr path => a ← Artifact_load path; Artifact_view a
| AFrame df => Ok df
| AnObject type_repr =>
    Raise (TypeError ("Incorrect feature table type: " +:+ type_repr))
end.

(** Lines 98-109: the normalization of the feature table. *)
Definition normalize_feats (feats : DataFrame) (normalize : option string)
  : result DataFrame :=
if decide (normalize = Some "log10") then
  Ok (applymap (λ x, np_log10 (x + 1)%Q) feats)
else if decide (normalize = Some "clr") then
  apply_rows_broadcast
    (λ x, clr ← load_global module_globals "clr";
          call_on_row clr ((λ v, v + 1)%Q <$> x))
    feats
else if decide (normalize = Some "zscore") then
  zscore ← load_global module_globals "zscore";
  apply_rows_broadcast (call_on_row zscore) feats
else if negb (truthy normalize) then
  Ok feats
else
  Raise (ValueError ("Incorrect normalization method: '"
                     +:+ format normalize +:+ "'")).

(** Line 111: [methods = {'pearson': pearsonr, 'spearman': spearmanr}] and
  the subscript [methods[method]]. *)
Definition methods
  : list (string * (selection → selection → result (Q * Q))) :=
[("pearson", pearsonr); ("spearman", spearmanr)].

Definition methods_getitem (method : string)
  : result (selection → selection → result (Q * Q)) :=
match list_find (λ e : string * _, e.1 = method) methods with
| Some (_, e) => Ok e.2
| None => Raise (KeyError method)
end.

(** Lines 113-121: the coefficient and the p-value of every (feature,
  target) pair, feature by feature and target by target. *)
Definition correlate (feats target : DataFrame) (method : string)
  : result (list (list (Q * Q))) :=
mapM (λ fi,
  mapM (λ tj,
    f ← methods_getitem method;
    x ← getitem feats fi;
    y ← getitem target tj;
    f x y) (columns target)) (columns feats).

(** Lines 123-132: the melted frame with its adjusted p-values. *)
Definition melted_header : list string :=
set_column ("taxon" :: (["target"; "corr"] ++ ["pval"])) "adjp".

Definition assemble (feats target : DataFrame)
  (stats : list (list (Q * Q))) (multitest : string)
  : result (list (nat * Row)) :=
let corr := melt (columns feats) (columns target) 
    ((λ r : list (Q * Q), r.*1) <$> stats) in
let pval := melt (columns feats) (columns target) 
    ((λ r : list (Q * Q), r.*2) <$> stats) in
let df := zip_with (λ c p, (c.1.1, c.1.2, c.2, p.2)) corr pval in
adj ← Multitest.multipletests multipletests_other (snd <$> df) multitest;
if decide (length adj = length df) then
  Ok (imap (λ i r, (i, r))
        (zip_with (λ (r : string * string * Q * Q) a,
           {| taxon := r.1.1.1; target := r.1.1.2; corr := r.1.2;
              pval := r.2; adjp := a |}) df adj))
else Raise (ValueError "Length of values does not match length of index").

Definition cross_association_table
  (artifact : pyvalue) (target : DataFrame) (method : string)
  (normalize : option string) (alpha : Q) (multitest : string) (nsig : Z)
  : result Table :=
feats ← load_feats artifact;
feats ← normalize_feats feats normalize;
stats ← correlate feats target method;
df ← assemble feats target stats multitest;
df ← (if decide (nsig ≠ 0%Z) then significance_filter df alpha nsig
      else Ok df);
let df := sort_values_pval df in
let df := reset_index_drop df in
Ok {| header := melted_header; body := df |}.

(** What [cross_association_heatmap] hands to [sns.clustermap]: the grid
  of coefficients, the annotation grid and the number format. *)
Record ClustermapCall : Type := {
data : Pivot Q;
annot : option (Pivot string);
fmt : string
}.

Definition val2sig (alpha x : Q) : string :=
if decide (x <= alpha)%Q then "*" else "".

(** Lines 234-246: the grids made from the table. *)
Definition heatmap_grids (df : Table) (alpha : Q) (marksig : bool)
  : result ClustermapCall :=
corr ← pivot (body df) target taxon corr;
if marksig then
  pval ← pivot (body df) target taxon pval;
  let annot := pivot_applymap (val2sig alpha) pval in
  Ok {| data := corr; annot := Some annot; fmt := "" |}
else
  Ok {| data := corr; annot := None; fmt := ".2g" |}.

Definition cross_association_heatmap
  (artifact : pyvalue) (target : DataFrame) (method : string)
  (normalize : option string) (alpha : Q) (multitest : string) (nsig : Z)
  (marksig : bool) : result ClustermapCall :=
df ← cross_association_table artifact target method normalize alpha
       multitest nsig;
heatmap_grids df alpha marksig.

End with_libraries.
End CrossAssociation.

(** ** dokdo/api/utils.py *)

Module Utils.
Section with_libraries.
Context {L : Libraries}.

(** The names the module binds. *)
Definition module_globals : list (string * binding) :=
[("np", PyModule "numpy"); ("pd", PyModule "pandas");
 ("Artifact", PyClass "qiime2.Artifact");
 ("import_feature_table", Function "import_feature_table");
 ("normalize_feature_table", Function "normalize_feature_table")].

(** Lines 5-17. *)
Definition import_feature_table (artifact : CrossAssociation.pyvalue)
    : result DataFrame :=
  match artifact with
  | CrossAssociation.AnArtifact a => Artifact_view a
  | CrossAssociation.AStr path => a ← Artifact_load path; Artifact_view a
  | CrossAssociation.AFrame df => Ok df
  | CrossAssociation.AnObject type_repr =>
      Raise (TypeError ("Incorrect input type: " +:+ type_repr))
  end.

Definition normalize_feature_table (df : DataFrame) (method : option string)
  : result DataFrame :=
if decide (method = Some "log10") then
  Ok (applymap (λ x, np_log10 (x + 1)%Q) df)
else if decide (method = Some "clr") then
  apply_rows_broadcast
    (λ x, clr ← load_global module_globals "clr";
          call_on_row clr ((λ v, v + 1)%Q <$> x))
    df
else if decide (method = Some "zscore") then
  zscore ← load_global module_globals "zscore";
  apply_rows_broadcast (call_on_row zscore) df
else
  Raise (ValueError ("Incorrect normalization method: "
                     +:+ format method)).

End with_libraries.
End Utils.

(** ** cli.py: make_manifest *)

Module Cli.

Definition tab : string := String "009"%char "".
Definition newline : string := String "010"%char "".

(** [x.split('_')[0]]: the text before the first underscore. *)
Fixpoint before_underscore (x : string) : string :=
  match x with
  | EmptyString => EmptyString
  | String c t =>
      if Ascii.eqb c "_"%char then EmptyString else String c (before_underscore t)
  end.

(** [pat in x] *)
Fixpoint contains (pat x : string) : bool :=
  String.prefix pat x
  || match x with
     | EmptyString => false
     | String _ t => contains pat t
     end.

(** The dictionary [files]: per sample name, the forward and the reverse
    path. *)
Abbreviation Files := (gmap string (string * string)).

(** [if name not in files: files[name] = ['', '']] and then
    [files[name][0] = path] (forward) or [files[name][1] = path]. *)
Definition set_path (forward : bool) (name path : string) (files : Files)
    : Files :=
  let files :=
    if decide (is_Some (files !! name)) then files
    else <[name := ("", "")]> files in
  alter (λ p : string * string,
           if forward then (path, p.2) else (p.1, path)) name files.

(** The body of the inner loop, for the file [x] of the directory [r]. *)
Definition visit (r x : string) (files : Files) : Files :=
  let name := before_underscore x in
  if contains "_R1_001.fastq" x then
    set_path true name (r +:+ "/" +:+ x) files
  else if contains "_R2_001.fastq" x then
    set_path false name (r +:+ "/" +:+ x) files
  else files.

(** The two loops over what [os.walk(fastq_dir)] yields: the triples
    (dirpath, dirnames, filenames) in order. *)
Definition collect (walk : list (string * list string * list string))
    : Files :=
  foldl (λ files (rdf : string * list string * list string),
           foldl (λ files x, visit rdf.1.1 x files) files rdf.2) ∅ walk.

Definition headers : list string :=
  ["sample-id"; "forward-absolute-filepath"; "reverse-absolute-filepath"].

(** One line of the file: the fields joined by tabs, and a newline. *)
Definition line (fields : list string) : string :=
  String.concat tab fields +:+ newline.

(** What is written to [output], one string per [f.write]. *)
Definition make_manifest (walk : list (string * list string * list string))
    : list string :=
  let files := collect walk in
  line headers ::
  ((λ name,
      let entry := default ("", "") (files !! name) in
      line [name; entry.1; entry.2])
   <$> sorted_labels ((map_to_list files).*1)).

(** The (directory, file) pairs in the order the loops visit them. *)
Definition entries (walk : list (string * list string * list string))
    : list (string * string) :=
  rdf ← walk; (λ x, (rdf.1.1, x)) <$> rdf.2.

(** The loop body on one such pair. *)
Definition step (files : Files) (e : string * string) : Files :=
  visit e.1 e.2 files.

(** A forward read, and a reverse read that is not also a forward one. *)
Definition is_forward (x : string) : bool := contains "_R1_001.fastq" x.

Definition is_reverse (x : string) : bool :=
  negb (is_forward x) && contains "_R2_001.fastq" x.

(** The sample names that own at least one read file. *)
Definition samples (es : list (string * string)) : list string :=
  (λ e : string * string, before_underscore e.2)
  <$> filter (λ e : string * string, is_forward e.2 ∨ is_reverse e.2) es.

(** The path of the last file of a kind that a sample owns, [''] when it
    owns none. *)
Definition last_path (kind : string → bool) (name : string)
    (es : list (string * string)) : string :=
  default ""
    ((λ e : string * string, e.1 +:+ "/" +:+ e.2)
     <$> last (filter (λ e : string * string,
                         kind e.2 ∧ before_underscore e.2 = name) es)).

End Cli.

(** ** A library instance to run the model on examples

    The statistic is tabulated (to three decimals) for the two pairs of
    columns of the example: Pearson's coefficient and two-sided p-value of
    [1,2,3] against [1,2,4] and against [1,3,2].  The logarithm and the
    other correction procedures are not used by the examples. *)

Definition same_values (a b : list Q) : bool :=
  bool_decide (length a = length b)
  && forallb (λ p : Q * Q, Qeq_bool p.1 p.2) (zip a b).

Definition example_pearsonr (x y : selection) : result (Q * Q) :=
  match x, y with
  | Series a, Series b =>
      if same_values a [1; 2; 3]%Q && same_values b [1; 2; 4]%Q
      then Ok (982 # 1000, 121 # 1000)%Q
      else if same_values a [1; 2; 3]%Q && same_values b [1; 3; 2]%Q
      then Ok (1 # 2, 667 # 1000)%Q
      else Raise (LibraryError "not tabulated")
  | _, _ => Raise (LibraryError "not tabulated")
  end.

Definition example_libraries : Libraries := {|
  Artifact := DataFrame;
  Artifact_view := Ok;
  Artifact_load := λ _, Raise (LibraryError "no file system");
  np_log10 := λ x, x;
  pearsonr := example_pearsonr;
  spearmanr := example_pearsonr;
  multipletests_other := λ _ _, Raise (ValueError "method not recognized")
|}.

Definition example_feats : DataFrame :=
  {| index := ["s1"; "s2"; "s3"]; series := [("f1", [1; 2; 3]%Q)] |}.

Definition example_target : DataFrame :=
  {| index := ["s1"; "s2"; "s3"];
     series := [("t1", [1; 2; 4]%Q); ("t2", [1; 3; 2]%Q)] |}.

(** The same target columns in the other order, and a frame with rows but
    no column. *)
Definition example_target_reversed : DataFrame :=
  {| index := ["s1"; "s2"; "s3"];
     series := [("t2", [1; 3; 2]%Q); ("t1", [1; 2; 4]%Q)] |}.

Definition example_no_columns : DataFrame :=
  {| index := ["s1"; "s2"; "s3"]; series := [] |}.

(** A small correlation result: one significant pair out of four. *)
Definition example_rows : list (nat * Row) :=
  [(0%nat, {| taxon := "f1"; target := "t1"; corr := 1; pval := 1 # 100;
          adjp := 2 # 100 |});
   (1%nat, {| taxon := "f1"; target := "t2"; corr := 0; pval := 1 # 2;
          adjp := 1 # 2 |});
   (2%nat, {| taxon := "f2"; target := "t1"; corr := 0; pval := 1 # 2;
          adjp := 1 # 2 |});
   (3%nat, {| taxon := "f2"; target := "t2"; corr := 0; pval := 1 # 2;
          adjp := 1 # 2 |})]%Q.


(** * Properties *)

(** ** The correction: sorting, scattering and the running minimum *)

Module MultitestFacts.
Import Multitest.

(** [argsort] is a permutation of the positions that sorts the values. *)

Lemma imap_index_fst (ps : list Q) :
  (imap (λ i p, (i, p)) ps).*1 = seq 0 (length ps).
Proof.
  apply list_eq. intros i.
  rewrite list_lookup_fmap, list_lookup_imap.
  destruct (ps !! i) as [p|] eqn:E; cbn.
  - symmetry. apply lookup_seq. split; [done|]. by eapply lookup_lt_Some.
  - symmetry. apply lookup_seq_ge. by apply lookup_ge_None.
Qed.

Lemma argsort_Permutation ps : argsort ps ≡ₚ seq 0 (length ps).
Proof.
  unfold argsort. rewrite merge_sort_Permutation.
  by rewrite imap_index_fst.
Qed.

Lemma argsort_length ps : length (argsort ps) = length ps.
Proof. by rewrite (Permutation_length (argsort_Permutation ps)), length_seq. Qed.

Lemma argsort_lt ps i : i ∈ argsort ps → i < length ps.
Proof.
  rewrite argsort_Permutation. rewrite elem_of_seq. lia.
Qed.

Lemma argsort_NoDup ps : NoDup (argsort ps).
Proof. rewrite argsort_Permutation. apply NoDup_seq. Qed.

Lemma take_at_argsort ps :
  take_at ps (argsort ps) = (merge_sort by_value (imap (λ i p, (i, p)) ps)).*2.
Proof.
  unfold take_at, argsort. rewrite <-list_fmap_compose.
  apply Forall_fmap_ext, Forall_forall. intros [i p] Hin. cbn.
  rewrite merge_sort_Permutation in Hin.
  apply elem_of_lookup_imap in Hin as (j & q & Heq & Hj).
  injection Heq as -> ->. by rewrite nth_lookup, Hj.
Qed.

Global Instance by_value_total : Total by_value.
Proof. intros a b. unfold by_value. destruct (Qlt_le_dec a.2 b.2); [left|right]; lra. Qed.

Lemma take_at_argsort_Sorted ps : Sorted Qle (take_at ps (argsort ps)).
Proof.
  rewrite take_at_argsort. eapply Sorted_fmap with (R1 := by_value); [done|].
  apply Sorted_merge_sort, _.
Qed.

Lemma take_at_length ps ind : length (take_at ps ind) = length ind.
Proof. apply length_fmap. Qed.

(** [scatter] puts the value of rank [j] at position [ind[j]]. *)

Lemma scatter_step_length (out : list Q) l :
  length (foldl (λ out iv, <[iv.1 := iv.2]> out) out l) = length out.
Proof.
  revert out. induction l as [|[i v] l IH]; intros out; cbn; [done|].
  by rewrite IH, length_insert.
Qed.

Lemma scatter_length ind vals : length (scatter ind vals) = length vals.
Proof. unfold scatter. by rewrite scatter_step_length, length_replicate. Qed.

Lemma scatter_step_notin (out : list Q) (ind : list nat) (vals : list Q) i :
  i ∉ ind →
  foldl (λ out iv, <[iv.1 := iv.2]> out) out (zip ind vals) !! i = out !! i.
Proof.
  revert out vals. induction ind as [|i0 ind IH]; intros out vals Hi; [done|].
  destruct vals as [|v vals]; [done|]. cbn.
  apply not_elem_of_cons in Hi as [Hne Hi].
  rewrite IH by done. by apply list_lookup_insert_ne.
Qed.

Lemma scatter_step_lookup (out : list Q) (ind : list nat) (vals : list Q) j i v :
  NoDup ind → (∀ i, i ∈ ind → i < length out) →
  ind !! j = Some i → vals !! j = Some v →
  foldl (λ out iv, <[iv.1 := iv.2]> out) out (zip ind vals) !! i = Some v.
Proof.
  revert out vals j. induction ind as [|i0 ind IH]; intros out vals j Hnd Hlt Hi Hv; [done|].
  destruct vals as [|v0 vals]; [done|]. cbn.
  apply NoDup_cons in Hnd as [Hnotin Hnd].
  destruct j as [|j]; cbn in *.
  - injection Hi as ->. injection Hv as ->.
    rewrite scatter_step_notin by done.
    apply list_lookup_insert_eq. apply Hlt. left.
  - apply (IH _ _ j); try done.
    intros i' Hi'. rewrite length_insert. apply Hlt. by right.
Qed.

Lemma scatter_lookup ind vals j i v :
  NoDup ind → (∀ i, i ∈ ind → i < length vals) →
  ind !! j = Some i → vals !! j = Some v →
  scatter ind vals !! i = Some v.
Proof.
  intros. unfold scatter. eapply scatter_step_lookup; try done.
  by rewrite length_replicate.
Qed.

(** The running minimum taken from the right is the minimum of the
    suffix. *)

Lemma last_cons_default (l : list Q) q d d' :
  List.last (q :: l) d = List.last (q :: l) d'.
Proof.
  revert q. induction l as [|z l IHl]; intros q; [done|].
  change (List.last (z :: l) d = List.last (z :: l) d'). apply IHl.
Qed.

Lemma last_cons_head (l : list Q) q d : List.last (q :: l) d = List.last l q.
Proof.
  destruct l as [|z l]; [done|].
  change (List.last (z :: l) d = List.last (z :: l) q). apply last_cons_default.
Qed.

Lemma accumulate_from_snoc acc a x :
  accumulate_from acc (a ++ [x]) =
  accumulate_from acc a ++ [Qmin (List.last (accumulate_from acc a) acc) x].
Proof.
  revert acc. induction a as [|y a IH]; intros acc; [done|].
  cbn [app accumulate_from]. rewrite IH. cbn [app]. do 3 f_equal.
  by rewrite last_cons_head.
Qed.

Lemma minimum_accumulate_snoc a x :
  a ≠ [] →
  minimum_accumulate (a ++ [x]) =
  minimum_accumulate a ++ [Qmin (List.last (minimum_accumulate a) 0%Q) x].
Proof.
  destruct a as [|y a]; [done|]. intros _. cbn [app minimum_accumulate].
  rewrite accumulate_from_snoc. cbn [app]. do 3 f_equal.
  by rewrite last_cons_head.
Qed.

Lemma minimum_accumulate_length a :
  length (minimum_accumulate a) = length a.
Proof.
  destruct a as [|x a]; [done|]. cbn. f_equal. revert x.
  induction a as [|y a IH]; intros z; [done|]. cbn. by rewrite IH.
Qed.

Lemma min_from_shift x (t : list Q) a n :
  BH.min_from (λ k, nth k (x :: t) 0%Q) (S a) n = BH.min_from (λ k, nth k t 0%Q) a n.
Proof. revert a. induction n as [|n IH]; intros a; cbn; [done|]. by rewrite IH. Qed.

Lemma min_from_S f k n :
  BH.min_from f k (S n) = Qmin (BH.min_from f (S k) n) (f k).
Proof. done. Qed.

Lemma last_nth_rev (M : list Q) d : List.last M d = nth 0 (rev M) d.
Proof.
  induction M as [|m M IH] using rev_ind; [done|].
  rewrite last_last, rev_app_distr. done.
Qed.

Lemma suffix_minimum (l : list Q) j :
  j < length l →
  nth j (rev (minimum_accumulate (rev l))) 0%Q =
  BH.min_from (λ k, nth k l 0%Q) j (length l - 1 - j).
Proof.
  revert j. induction l as [|x t IH]; intros j Hj; [cbn in Hj; lia|].
  destruct t as [|y t'].
  { destruct j; [done|cbn in Hj; lia]. }
  set (t := y :: t') in *.
  cbn [rev]. fold (rev t).
  rewrite minimum_accumulate_snoc.
  2:{ subst t. cbn [rev]. by destruct (rev t'). }
  rewrite rev_app_distr. cbn [rev app].
  destruct j as [|j].
  - replace (length (x :: t) - 1 - 0) with (S (length t - 1 - 0)) by (subst t; cbn; lia).
    rewrite min_from_S, min_from_shift, <-IH by (subst t; cbn; lia).
    by rewrite last_nth_rev.
  - rewrite min_from_shift.
    replace (length (x :: t) - 1 - S j) with (length t - 1 - j) by (subst t; cbn; lia).
    apply (IH j). subst t. cbn in *. lia.
Qed.

Lemma Qnat_pos n : 0 < n → (0 < Qnat n)%Q.
Proof. intros H. unfold Qnat. rewrite <-(Zlt_Qlt 0). lia. Qed.

Lemma Qnat_le m n : m ≤ n → (Qnat m <= Qnat n)%Q.
Proof. intros H. unfold Qnat. rewrite <-Zle_Qle. lia. Qed.

(** Bounds on [min_from]. *)
Lemma min_from_le f k n i :
  k ≤ i ≤ k + n → (BH.min_from f k n <= f i)%Q.
Proof.
  revert k. induction n as [|n IH]; intros k Hi.
  - cbn. replace i with k by lia. lra.
  - rewrite min_from_S. destruct (decide (i = k)) as [->|Hne].
    + apply Q.le_min_r.
    + etrans; [apply Q.le_min_l|]. apply IH. lia.
Qed.

Lemma min_from_glb f k n c :
  (∀ i, k ≤ i ≤ k + n → (c <= f i)%Q) → (c <= BH.min_from f k n)%Q.
Proof.
  revert k. induction n as [|n IH]; intros k Hc.
  - cbn. apply Hc. lia.
  - rewrite min_from_S. apply Q.min_glb.
    + apply IH. intros i Hi. apply Hc. lia.
    + apply Hc. lia.
Qed.

Lemma min_from_suffix_mono f j1 j2 e :
  j1 ≤ j2 ≤ e → (BH.min_from f j1 (e - j1) <= BH.min_from f j2 (e - j2))%Q.
Proof.
  intros H. apply min_from_glb. intros i Hi. apply min_from_le. lia.
Qed.

Lemma min_from_ext_shift f g k n :
  (∀ i, k ≤ i ≤ k + n → (f i == g (S i))%Q) →
  (BH.min_from f k n == BH.min_from g (S k) n)%Q.
Proof.
  revert k. induction n as [|n IH]; intros k H.
  - cbn. apply H. lia.
  - rewrite !min_from_S. rewrite IH by (intros; apply H; lia).
    rewrite (H k) by lia. reflexivity.
Qed.

Lemma clip1_idemp x : clip1 (clip1 x) = clip1 x.
Proof. unfold clip1. repeat case_decide; first [done | exfalso; lra]. Qed.

Lemma clip1_clip01 x : (0 <= x)%Q → (clip1 x == BH.clip01 x)%Q.
Proof.
  intros H. unfold clip1, BH.clip01. case_decide.
  - rewrite Q.min_l by done. rewrite Q.max_r by done. reflexivity.
  - rewrite Q.min_r by lra. rewrite Q.max_r by lra. reflexivity.
Qed.

Lemma clip1_proper x y : (x == y)%Q → (clip1 x == clip1 y)%Q.
Proof. intros H. unfold clip1. repeat case_decide; lra. Qed.

Lemma clip1_mono x y : (x <= y)%Q → (clip1 x <= clip1 y)%Q.
Proof. intros H. unfold clip1. repeat case_decide; lra. Qed.

Lemma clip_above_one_lookup a j :
  clip_above_one a !! j = clip1 <$> a !! j.
Proof. unfold clip_above_one. by rewrite list_lookup_fmap. Qed.

Lemma ecdf_length n : length (ecdf n) = n.
Proof. unfold ecdf. by rewrite length_fmap, length_seq. Qed.

Lemma ecdf_lookup n k : k < n → ecdf n !! k = Some (Qnat (S k) / Qnat n)%Q.
Proof.
  intros H. unfold ecdf. rewrite list_lookup_fmap, lookup_seq_lt by done. done.
Qed.

Lemma pvals_corrected_raw_length sorted : length (pvals_corrected_raw sorted) = length sorted.
Proof. unfold pvals_corrected_raw. rewrite length_zip_with, ecdf_length. lia. Qed.

Lemma pvals_corrected_raw_nth sorted k :
  k < length sorted →
  (nth k (pvals_corrected_raw sorted) 0 == BH.scaled sorted (S k))%Q.
Proof.
  intros H. unfold pvals_corrected_raw, BH.scaled.
  destruct (lookup_lt_is_Some_2 sorted k H) as [p Hp].
  rewrite !nth_lookup, lookup_zip_with, Hp, ecdf_lookup by done. cbn.
  rewrite Nat.sub_0_r, Hp. cbn.
  pose proof (Qnat_pos (S k) ltac:(lia)). pose proof (Qnat_pos (length sorted) ltac:(lia)).
  field. split; lra.
Qed.

Lemma fdrcorrection_lookup sorted j :
  j < length sorted →
  clip_above_one (fdrcorrection sorted) !! j =
  Some (clip1 (BH.min_from (λ k, nth k (pvals_corrected_raw sorted) 0%Q) j (length sorted - 1 - j))).
Proof.
  intros H. unfold fdrcorrection. fold (pvals_corrected_raw sorted).
  rewrite !clip_above_one_lookup.
  assert (Hlen : j < length (rev (minimum_accumulate (rev (pvals_corrected_raw sorted))))).
  { rewrite length_rev. 
    by rewrite minimum_accumulate_length, length_rev,
      pvals_corrected_raw_length. }
  destruct (lookup_lt_is_Some_2 _ _ Hlen) as [v Hv]. rewrite Hv. cbn.
  rewrite clip1_idemp. do 2 f_equal.
  rewrite <-(pvals_corrected_raw_length sorted), <-suffix_minimum by (by rewrite pvals_corrected_raw_length).
  by rewrite nth_lookup, Hv.
Qed.

Lemma min_from_raw_scaled sorted j :
  j < length sorted →
  (BH.min_from (λ k, nth k (pvals_corrected_raw sorted) 0) j (length sorted - 1 - j)
   == BH.min_from (BH.scaled sorted) (S j) (length sorted - S j))%Q.
Proof.
  intros H. replace (length sorted - 1 - j) with (length sorted - S j) by lia.
  apply min_from_ext_shift. intros i Hi. apply pvals_corrected_raw_nth. lia.
Qed.

Lemma Sorted_nth_le (l : list Q) j k :
  Sorted Qle l → j ≤ k < length l → (nth j l 0 <= nth k l 0)%Q.
Proof.
  intros Hs. apply Sorted_StronglySorted in Hs; [|apply _].
  revert j k. induction Hs as [|x l Hs IH Hall]; intros j k Hjk; [cbn in Hjk; lia|].
  destruct k as [|k].
  - replace j with 0 by lia. cbn. lra.
  - destruct j as [|j].
    + cbn [nth]. rewrite Forall_forall in Hall. apply Hall.
      rewrite nth_lookup. cbn in Hjk.
      destruct (lookup_lt_is_Some_2 l k ltac:(lia)) as [v Hv]. rewrite Hv. cbn.
      by eapply list_elem_of_lookup_2.
    + cbn [nth]. apply IH. cbn in Hjk. lia.
Qed.

Lemma take_at_in_unit ps ind j :
  Forall in_unit ps → (∀ i, i ∈ ind → i < length ps) → j < length ind →
  in_unit (nth j (take_at ps ind) 0%Q).
Proof.
  intros Hall Hind Hj. unfold take_at.
  destruct (lookup_lt_is_Some_2 ind j Hj) as [i Hi].
  rewrite nth_lookup, list_lookup_fmap, Hi. cbn.
  assert (i < length ps) as Hlt by (apply Hind; by eapply list_elem_of_lookup_2).
  destruct (lookup_lt_is_Some_2 ps i Hlt) as [p Hp].
  rewrite nth_lookup, Hp. cbn. rewrite Forall_forall in Hall. apply Hall.
  by eapply list_elem_of_lookup_2.
Qed.

Lemma scaled_ge (sorted : list Q) k :
  1 ≤ k ≤ length sorted → (0 <= nth (k - 1) sorted 0)%Q →
  (nth (k - 1) sorted 0 <= BH.scaled sorted k)%Q.
Proof.
  intros Hk Hp. unfold BH.scaled.
  pose proof (Qnat_pos k ltac:(lia)) as Hkpos.
  pose proof (Qnat_le k (length sorted) ltac:(lia)) as Hle.
  apply Qle_shift_div_l; [done|]. nra.
Qed.

Section adjusted.
Context (other : string → list Q → result (list Q)) (ps : list Q).
Let sortind := argsort ps.
Let sorted := take_at ps sortind.

Lemma sorted_length : length sorted = length ps.
Proof. subst sorted sortind. by rewrite take_at_length, argsort_length. Qed.

Lemma multipletests_fdr_bh :
  ps ≠ [] →
  multipletests other ps "fdr_bh" =
  Ok (scatter sortind (clip_above_one (fdrcorrection sorted))).
Proof.
  intros Hne. unfold multipletests. fold sortind. fold sorted.
  rewrite sorted_length. destruct ps; [done|]. cbn [length].
  rewrite decide_False by lia. by rewrite decide_True.
Qed.

Lemma corrected_length :
  length (clip_above_one (fdrcorrection sorted)) = length ps.
Proof.
  apply Nat.le_antisymm.
  - destruct (decide (length (clip_above_one (fdrcorrection sorted)) ≤ length ps)); [done|].
    exfalso. 
    destruct (lookup_lt_is_Some_2 (clip_above_one (fdrcorrection sorted)) (length ps) ltac:(lia)) as [v Hv].
    unfold fdrcorrection in Hv. rewrite !clip_above_one_lookup in Hv.
    destruct (rev _ !! length ps) eqn:E; [|done].
    apply lookup_lt_Some in E. rewrite length_rev in E.
    revert E. fold (pvals_corrected_raw sorted).
    rewrite minimum_accumulate_length, length_rev,
      pvals_corrected_raw_length, sorted_length. lia.
  - destruct (decide (length ps ≤ length (clip_above_one (fdrcorrection sorted)))); [done|].
    exfalso. assert (length ps ≠ 0) by lia.
    pose proof (fdrcorrection_lookup sorted (length ps - 1)) as H1.
    rewrite sorted_length in H1. specialize (H1 ltac:(lia)).
    apply lookup_lt_Some in H1. lia.
Qed.

Lemma adjusted_at_sortind j i :
  sortind !! j = Some i →
  scatter sortind (clip_above_one (fdrcorrection sorted)) !! i =
  Some (clip1 (BH.min_from (λ k, nth k (pvals_corrected_raw sorted) 0%Q) j (length sorted - 1 - j))).
Proof.
  intros Hj. apply (scatter_lookup _ _ j).
  - apply argsort_NoDup.
  - intros i' Hi'. rewrite corrected_length. by apply argsort_lt.
  - done.
  - apply fdrcorrection_lookup. rewrite sorted_length, <-(argsort_length ps).
    by eapply lookup_lt_Some.
Qed.
End adjusted.
End MultitestFacts.
Section benjamini_hochberg.
Import Multitest MultitestFacts.
Context (other : string → list Q → result (list Q)).

Lemma adjusted_at_rank_lookup ps j i :
  Forall in_unit ps → argsort ps !! j = Some i →
  ∃ a, scatter (argsort ps)
         (clip_above_one (fdrcorrection (take_at ps (argsort ps)))) !! i
       = Some a ∧
       (a == BH.adjusted_at_rank (take_at ps (argsort ps)) (S j))%Q.
Proof.
  intros Hunit Hj. eexists. split; [by apply adjusted_at_sortind|].
  pose proof (lookup_lt_Some _ _ _ Hj) as Hlt. rewrite argsort_length in Hlt.
  set (sorted := take_at ps (argsort ps)).
  assert (Hlen : length sorted = length ps) by apply sorted_length.
  rewrite (clip1_proper _ _ (min_from_raw_scaled sorted j ltac:(lia))).
  unfold BH.adjusted_at_rank. rewrite Hlen. apply clip1_clip01.
  apply min_from_glb. intros k Hk.
  etrans; [|apply scaled_ge; [lia|]];
    apply (take_at_in_unit ps (argsort ps) (k - 1)); auto using argsort_lt;
    rewrite argsort_length; lia.
Qed.

(** C1.  For every non-empty sequence of p-values in [0,1], the
    correction with method 'fdr_bh' returns the Benjamini-Hochberg values:
    with the p-values sorted ascending, the entry at the original position
    of rank [k] is the minimum over [k' >= k] of [p_(k') * N / k'], clipped
    to [0,1]; and [0.01, 0.02, 0.03, 0.50] gives
    [0.04, 0.04, 0.04, 0.50]. *)
Theorem fdr_bh_adjusted_values :
  (∀ ps : list Q, ps ≠ [] → Forall in_unit ps →
    ∃ adj, multipletests other ps "fdr_bh" = Ok adj ∧
      length adj = length ps ∧
      let sortind := argsort ps in
      let sorted := take_at ps sortind in
      sortind ≡ₚ seq 0 (length ps) ∧ Sorted Qle sorted ∧
      ∀ k, 1 ≤ k ≤ length ps →
        (nth (nth (k - 1) sortind 0%nat) adj 0
         == BH.adjusted_at_rank sorted k)%Q) ∧
  (∃ adj, multipletests other [1#100; 2#100; 3#100; 50#100]%Q "fdr_bh"
          = Ok adj ∧
          Forall2 Qeq adj [4#100; 4#100; 4#100; 50#100]%Q).
Proof.
  split.
  - intros ps Hne Hunit. eexists. split; [by apply multipletests_fdr_bh|].
    split; [by rewrite scatter_length, corrected_length|].
    split; [apply argsort_Permutation|].
    split; [apply take_at_argsort_Sorted|].
    intros k Hk.
    destruct (lookup_lt_is_Some_2 (argsort ps) (k - 1)) as [i Hi].
    { rewrite argsort_length. lia. }
    destruct (adjusted_at_rank_lookup ps (k - 1) i Hunit Hi) as (a & Ha & Heq).
    rewrite (nth_lookup (argsort ps)), Hi. cbn.
    rewrite nth_lookup, Ha. cbn.
    by replace (S (k - 1)) with k in Heq by lia.
  - eexists. split; [reflexivity|].
    repeat constructor; reflexivity.
Qed.
End benjamini_hochberg.
Section benjamini_hochberg_order.
Import Multitest MultitestFacts.
Context (other : string → list Q → result (list Q)).

Lemma scaled_le_scaled (p1 pk n a b : Q) :
  (0 <= p1 → p1 <= pk → 0 < a → a <= b → 0 <= n →
   p1 * n / b <= pk * n / a)%Q.
Proof.
  intros H1 H2 Ha Hb Hn.
  apply Qle_shift_div_l; [done|].
  assert (Hb0 : (0 < b)%Q) by lra.
  assert (E : (p1 * n / b * a == (p1 * n * a) / b)%Q) by (field; lra).
  rewrite E.
  apply Qle_shift_div_r; [done|].
  assert (A1 : (p1 * n <= pk * n)%Q) by (by apply Qmult_le_compat_r).
  assert (A2 : (p1 * n * a <= pk * n * a)%Q)
    by (apply Qmult_le_compat_r; [done|lra]).
  assert (A3 : (0 <= pk * n)%Q) by (apply Qmult_le_0_compat; lra).
  assert (A4 : (pk * n * a <= pk * n * b)%Q).
  { rewrite !(Qmult_comm (pk * n)). by apply Qmult_le_compat_r. }
  lra.
Qed.

Section fixed_input.
Context (ps : list Q) (Hunit : Forall in_unit ps).
Let sorted := take_at ps (argsort ps).
Let N := length ps.
(** The corrected value at position [j] of the sorted order. *)
Let M (j : nat) : Q :=
  BH.min_from (λ k, nth k (pvals_corrected_raw sorted) 0%Q) j
    (length sorted - 1 - j).

Local Lemma sorted_len : length sorted = N.
Proof. apply sorted_length. Qed.

Local Lemma sorted_unit j : j < N → in_unit (nth j sorted 0%Q).
Proof.
  intros Hj. apply take_at_in_unit; auto using argsort_lt.
  by rewrite argsort_length.
Qed.

Local Lemma sorted_le j k : j ≤ k < N → (nth j sorted 0 <= nth k sorted 0)%Q.
Proof.
  intros H. apply Sorted_nth_le; [apply take_at_argsort_Sorted|].
  by rewrite sorted_len.
Qed.

Local Lemma raw_ge k : k < N →
  (nth k sorted 0 <= nth k (pvals_corrected_raw sorted) 0)%Q.
Proof.
  intros Hk. rewrite pvals_corrected_raw_nth by (by rewrite sorted_len).
  pose proof (scaled_ge sorted (S k)) as G.
  rewrite sorted_len in G. cbn [Nat.sub] in G. rewrite Nat.sub_0_r in G.
  apply G; [lia|]. by apply sorted_unit.
Qed.

Local Lemma M_ge j : j < N → (nth j sorted 0 <= M j)%Q.
Proof.
  intros Hj. apply min_from_glb. intros k Hk. rewrite sorted_len in Hk.
  etrans; [apply (sorted_le j k); lia|]. apply raw_ge. lia.
Qed.

Local Lemma M_mono j1 j2 : j1 ≤ j2 < N → (M j1 <= M j2)%Q.
Proof.
  intros H. unfold M. rewrite sorted_len.
  apply (min_from_suffix_mono _ j1 j2 (N - 1)). lia.
Qed.

Local Lemma M_tie j1 j2 :
  j2 ≤ j1 < N → (nth j1 sorted 0 <= nth j2 sorted 0)%Q → (M j1 <= M j2)%Q.
Proof.
  intros H Hle. apply min_from_glb. intros k Hk. rewrite sorted_len in Hk.
  destruct (decide (j1 ≤ k)) as [Hjk|Hjk].
  - unfold M.
    apply (min_from_le (λ k, nth k (pvals_corrected_raw sorted) 0%Q)).
    rewrite sorted_len. lia.
  - etrans; [unfold M; apply (min_from_le _ j1 _ j1); lia|]. cbv beta.
    rewrite !pvals_corrected_raw_nth by (rewrite sorted_len; lia).
    unfold BH.scaled. cbn [Nat.sub]. rewrite !Nat.sub_0_r.
    destruct (sorted_unit j1 ltac:(lia)) as [H0 _].
    apply scaled_le_scaled.
    + done.
    + etrans; [exact Hle|]. apply sorted_le. lia.
    + apply Qnat_pos. lia.
    + apply Qnat_le. lia.
    + apply Qlt_le_weak, Qnat_pos. rewrite sorted_len. lia.
Qed.

Local Lemma adjusted_lookup_rank j i :
  argsort ps !! j = Some i →
  nth i (scatter (argsort ps) (clip_above_one (fdrcorrection sorted))) 0%Q
  = clip1 (M j) ∧ nth i ps 0%Q = nth j sorted 0%Q.
Proof.
  intros Hj. split.
  - pose proof (adjusted_at_sortind ps j i Hj) as E.
    rewrite nth_lookup. unfold sorted, M. by rewrite E.
  - subst sorted. unfold take_at.
    by rewrite (nth_lookup (_ <$> _)), list_lookup_fmap, Hj.
Qed.

Local Lemma rank_of i : i < N → ∃ j, j < N ∧ argsort ps !! j = Some i.
Proof.
  intros Hi. assert (i ∈ argsort ps) as Hin.
  { rewrite argsort_Permutation, elem_of_seq. lia. }
  apply list_elem_of_lookup in Hin as [j Hj]. exists j. split; [|done].
  apply lookup_lt_Some in Hj. by rewrite argsort_length in Hj.
Qed.

(** C9.  Benjamini-Hochberg correction is inflationary and monotone
    in the rank: every adjusted value is at least its p-value, the
    adjusted values are non-decreasing along the ascending order of the
    p-values, and a smaller p-value never gets a larger adjusted
    value. *)
Theorem fdr_bh_inflationary_and_monotone :
  ps ≠ [] →
  ∃ adj, multipletests other ps "fdr_bh" = Ok adj ∧
    (∀ i, i < length ps → (nth i ps 0 <= nth i adj 0)%Q) ∧
    (∀ j1 j2, j1 ≤ j2 < length ps →
       (nth (nth j1 (argsort ps) 0%nat) adj 0
        <= nth (nth j2 (argsort ps) 0%nat) adj 0)%Q) ∧
    (∀ i1 i2, i1 < length ps → i2 < length ps →
       (nth i1 ps 0 <= nth i2 ps 0)%Q →
       (nth i1 adj 0 <= nth i2 adj 0)%Q).
Proof.
  intros Hne. eexists. split; [by apply multipletests_fdr_bh|].
  fold sorted. fold N. split; [|split].
  - intros i Hi. destruct (rank_of i Hi) as (j & Hj & Hji).
    destruct (adjusted_lookup_rank j i Hji) as [-> ->].
    pose proof (M_ge j Hj). destruct (sorted_unit j Hj).
    unfold clip1. case_decide; lra.
  - intros j1 j2 H.
    destruct (lookup_lt_is_Some_2 (argsort ps) j1) as [i1 H1];
      [rewrite argsort_length; fold N; lia|].
    destruct (lookup_lt_is_Some_2 (argsort ps) j2) as [i2 H2];
      [rewrite argsort_length; fold N; lia|].
    rewrite !(nth_lookup (argsort ps)), H1, H2. cbn.
    destruct (adjusted_lookup_rank j1 i1 H1) as [-> _].
    destruct (adjusted_lookup_rank j2 i2 H2) as [-> _].
    by apply clip1_mono, M_mono.
  - intros i1 i2 Hi1 Hi2 Hle.
    destruct (rank_of i1 Hi1) as (j1 & Hj1 & Hji1).
    destruct (rank_of i2 Hi2) as (j2 & Hj2 & Hji2).
    destruct (adjusted_lookup_rank j1 i1 Hji1) as [-> E1].
    destruct (adjusted_lookup_rank j2 i2 Hji2) as [-> E2].
    rewrite E1, E2 in Hle. apply clip1_mono.
    destruct (decide (j1 ≤ j2)); [apply M_mono; lia|].
    apply M_tie; [lia|done].
Qed.
End fixed_input.
End benjamini_hochberg_order.
Section pivot_facts.
Context {V : Type} (df : list (nat * Row)) (idx col : Row → string)
        (val : Row → V).
Let keys := (λ r : nat * Row, (idx r.2, col r.2)) <$> df.

Lemma sorted_labels_elem_of l x : x ∈ sorted_labels l ↔ x ∈ l.
Proof.
  unfold sorted_labels. by rewrite merge_sort_Permutation, elem_of_remove_dups.
Qed.

Lemma sorted_labels_NoDup l : NoDup (sorted_labels l).
Proof.
  unfold sorted_labels. rewrite merge_sort_Permutation. apply NoDup_remove_dups.
Qed.

Lemma pivot_Ok :
  NoDup keys →
  ∃ g, pivot df idx col val = Ok g ∧
    (∀ i, i ∈ p_index g ↔ ∃ r, r ∈ df ∧ idx r.2 = i) ∧
    (∀ c, c ∈ p_columns g ↔ ∃ r, r ∈ df ∧ col r.2 = c) ∧
    NoDup (p_index g) ∧ NoDup (p_columns g) ∧
    (∀ i c v, p_cells g !! (i, c) = Some v ↔
              ∃ r, r ∈ df ∧ idx r.2 = i ∧ col r.2 = c ∧ val r.2 = v).
Proof.
  intros Hnd. unfold pivot. fold keys. rewrite decide_True by done.
  eexists. split; [done|]. cbn.
  split; [|split; [|split; [|split]]].
  - intros i. rewrite sorted_labels_elem_of. subst keys.
    rewrite <-list_fmap_compose, list_elem_of_fmap.
    split; [intros (r & -> & Hr)|intros (r & Hr & <-)]; eauto.
  - intros c. rewrite sorted_labels_elem_of. subst keys.
    rewrite <-list_fmap_compose, list_elem_of_fmap.
    split; [intros (r & -> & Hr)|intros (r & Hr & <-)]; eauto.
  - apply sorted_labels_NoDup.
  - apply sorted_labels_NoDup.
  - intros i c v. rewrite <-elem_of_list_to_map.
    + rewrite list_elem_of_fmap. split.
      * intros (r & [= -> -> ->] & Hr). eauto.
      * intros (r & Hr & <- & <- & <-). eauto.
    + by rewrite <-list_fmap_compose.
Qed.
End pivot_facts.

Lemma result_bind_Ok {A B} (a : A) (f : A → result B) : Ok a ≫= f = f a.
Proof. done. Qed.

Lemma result_bind_Raise {A B} e (f : A → result B) : Raise e ≫= f = Raise e.
Proof. done. Qed.

Lemma filter_ext_in {A} (P Q : A → Prop)
    `{!∀ x, Decision (P x), !∀ x, Decision (Q x)} (l : list A) :
  (∀ x, x ∈ l → (P x ↔ Q x)) → filter P l = filter Q l.
Proof.
  induction l as [|a l IH]; intros HPQ; [done|].
  rewrite !filter_cons.
  rewrite IH by (intros x Hx; apply HPQ; by right).
  apply decide_ext, HPQ. by left.
Qed.

Lemma NoDup_fmap_inj_on {A B} (f : A → B) (l : list A) x y :
  NoDup (f <$> l) → x ∈ l → y ∈ l → f x = f y → x = y.
Proof.
  induction l as [|a l IH]; intros Hnd Hx Hy Hxy; [by apply elem_of_nil in Hx|].
  cbn in Hnd. apply NoDup_cons in Hnd as [Hna Hnd].
  apply elem_of_cons in Hx as [->|Hx]; apply elem_of_cons in Hy as [->|Hy].
  - done.
  - exfalso. apply Hna. rewrite Hxy. by apply list_elem_of_fmap_2.
  - exfalso. apply Hna. rewrite <-Hxy. by apply list_elem_of_fmap_2.
  - by apply IH.
Qed.

Section significance_filter_facts.
Context (df : list (nat * Row)) (alpha : Q).
Context (Hnd : NoDup (pair_of <$> df)).
Context (g : Pivot Q) (Hg : pivot df taxon target adjp = Ok g).
Let sig := pivot_applymap (λ v, bool_decide (v <= alpha)%Q) g.

Local Ltac pivot_facts :=
  let g' := fresh "g" in
  let Hg' := fresh "Hg" in
  destruct (pivot_Ok df taxon target adjp Hnd)
    as (g' & Hg' & ? & ? & ? & ? & ?);
  rewrite Hg in Hg'; injection Hg' as <-.

Local Lemma g_cells i c v :
  p_cells g !! (i, c) = Some v ↔
  ∃ r, r ∈ df ∧ taxon r.2 = i ∧ target r.2 = c ∧ adjp r.2 = v.
Proof. pivot_facts. done. Qed.

Local Lemma g_columns c : c ∈ p_columns g ↔ ∃ r, r ∈ df ∧ target r.2 = c.
Proof. pivot_facts. done. Qed.

Local Lemma g_index i : i ∈ p_index g ↔ ∃ r, r ∈ df ∧ taxon r.2 = i.
Proof. pivot_facts. done. Qed.

Local Lemma g_NoDup : NoDup (p_index g) ∧ NoDup (p_columns g).
Proof. pivot_facts. done. Qed.

Lemma sig_cell_true i c :
  cell_true sig i c ↔
  ∃ r, r ∈ df ∧ taxon r.2 = i ∧ target r.2 = c ∧ (adjp r.2 <= alpha)%Q.
Proof.
  unfold cell_true, sig, pivot_applymap. cbn. rewrite lookup_fmap.
  destruct (p_cells g !! (i, c)) as [v|] eqn:E; cbn.
  - apply g_cells in E as (r & Hr & <- & <- & <-).
    rewrite bool_decide_spec. split; [eauto 10|].
    intros (r' & Hr' & Ht & Hc & Hle).
    assert (r' = r) as ->; [|done].
    apply (NoDup_fmap_inj_on pair_of df); try done.
    unfold pair_of. by rewrite Ht, Hc.
  - split; [done|]. intros (r & Hr & <- & <- & _).
    assert (p_cells g !! (taxon r.2, target r.2) = Some (adjp r.2)) as E'
      by (apply g_cells; eauto).
    by rewrite E in E'.
Qed.

Lemma df_NoDup : NoDup df.
Proof. by eapply NoDup_fmap_1. Qed.

Lemma sum_axis1_count i :
  Z.of_nat (length (filter (λ c, cell_true sig i c) (p_columns sig)))
  = taxon_count df alpha i.
Proof.
  unfold taxon_count. f_equal.
  rewrite <-(length_fmap (λ r : nat * Row, target r.2)).
  apply Permutation_length, NoDup_Permutation.
  - apply NoDup_filter, g_NoDup.
  - apply NoDup_fmap_2_strong; [|apply NoDup_filter, df_NoDup].
    intros x y [[Hx _] Hxin]%list_elem_of_filter
               [[Hy _] Hyin]%list_elem_of_filter Heq.
    apply (NoDup_fmap_inj_on pair_of df); try done.
    unfold pair_of. by rewrite Hx, Hy, Heq.
  - intros c. rewrite list_elem_of_filter, list_elem_of_fmap, sig_cell_true.
    split.
    + intros [(r & Hr & Ht & Hc & Hle) _]. exists r. split; [done|].
      by apply list_elem_of_filter.
    + intros (r & -> & [[Ht Hle] Hr]%list_elem_of_filter). split; [eauto 10|].
      apply g_columns. eauto.
Qed.

Lemma sum_axis0_count c :
  Z.of_nat (length (filter (λ i, cell_true sig i c) (p_index sig)))
  = target_count df alpha c.
Proof.
  unfold target_count. f_equal.
  rewrite <-(length_fmap (λ r : nat * Row, taxon r.2)).
  apply Permutation_length, NoDup_Permutation.
  - apply NoDup_filter, g_NoDup.
  - apply NoDup_fmap_2_strong; [|apply NoDup_filter, df_NoDup].
    intros x y [[Hx _] Hxin]%list_elem_of_filter
               [[Hy _] Hyin]%list_elem_of_filter Heq.
    apply (NoDup_fmap_inj_on pair_of df); try done.
    unfold pair_of. by rewrite Hx, Hy, Heq.
  - intros i. rewrite list_elem_of_filter, list_elem_of_fmap, sig_cell_true.
    split.
    + intros [(r & Hr & Ht & Hc & Hle) _]. exists r. split; [done|].
      by apply list_elem_of_filter.
    + intros (r & -> & [[Ht Hle] Hr]%list_elem_of_filter). split; [eauto 10|].
      apply g_index. eauto.
Qed.

Lemma taxon_survivors_spec (k : Z) t :
  t ∈ survivors (sum_axis1 sig) k ↔
  t ∈ p_index g ∧ (k ≤ taxon_count df alpha t)%Z.
Proof.
  unfold survivors, sum_axis1. rewrite list_elem_of_fmap. split.
  - intros ([t' n] & -> & [Hle Hin]%list_elem_of_filter). cbn in *.
    apply list_elem_of_fmap in Hin as (i & [= -> ->] & Hi).
    rewrite sum_axis1_count in Hle. done.
  - intros [Hi Hle]. exists (t, taxon_count df alpha t). split; [done|].
    apply list_elem_of_filter. split; [done|].
    apply list_elem_of_fmap. exists t. by rewrite sum_axis1_count.
Qed.

Lemma target_survivors_spec (k : Z) c :
  c ∈ survivors (sum_axis0 sig) k ↔
  c ∈ p_columns g ∧ (k ≤ target_count df alpha c)%Z.
Proof.
  unfold survivors, sum_axis0. rewrite list_elem_of_fmap. split.
  - intros ([c' n] & -> & [Hle Hin]%list_elem_of_filter). cbn in *.
    apply list_elem_of_fmap in Hin as (i & [= -> ->] & Hi).
    rewrite sum_axis0_count in Hle. done.
  - intros [Hi Hle]. exists (c, target_count df alpha c). split; [done|].
    apply list_elem_of_filter. split; [done|].
    apply list_elem_of_fmap. exists c. by rewrite sum_axis0_count.
Qed.
End significance_filter_facts.

(** C2.  On a correlation result (one row per pair) the significance
    filter keeps exactly the rows whose taxon has at least [k] significant
    targets and whose target has at least [k] significant taxa, both counts
    taken as [adjp <= alpha] over all the rows given to the filter. *)
Theorem significance_filter_intersection
    (df : list (nat * Row)) (alpha : Q) (k : Z) :
  NoDup (pair_of <$> df) →
  significance_filter df alpha k =
  Ok (filter (λ r : nat * Row,
        (k ≤ taxon_count df alpha (taxon r.2))%Z ∧
        (k ≤ target_count df alpha (target r.2))%Z) df).
Proof.
  intros Hnd. unfold significance_filter.
  destruct (pivot_Ok df taxon target adjp Hnd) as (g & Hg & Hidx & Hcol & _).
  rewrite Hg, result_bind_Ok. cbv zeta. f_equal. unfold keep_isin.
  rewrite list_filter_filter. apply filter_ext_in. intros r Hr.
  rewrite (taxon_survivors_spec df alpha Hnd g Hg),
          (target_survivors_spec df alpha Hnd g Hg).
  rewrite Hidx, Hcol. split.
  - intros [[_ H1] [_ H2]]. done.
  - intros [H1 H2]. eauto 10.
Qed.
(** ** Inversion of the error monad *)

Lemma bind_Ok_inv {A B} (m : result A) (f : A → result B) b :
  m ≫= f = Ok b → ∃ a, m = Ok a ∧ f a = Ok b.
Proof. destruct m as [a|e]; [eauto|done]. Qed.

Ltac inv_bind H :=
  let a := fresh "a" in
  let Ha := fresh "H" a in
  apply bind_Ok_inv in H as (a & Ha & H).

Lemma mapM_cons {A B} (f : A → result B) x l :
  mapM f (x :: l) = y ← f x; k ← mapM f l; mret (y :: k).
Proof. done. Qed.

Lemma mapM_Ok_length {A B} (f : A → result B) l k :
  mapM f l = Ok k → length k = length l.
Proof.
  revert k. induction l as [|x l IH]; intros k Hk.
  - by injection Hk as <-.
  - rewrite mapM_cons in Hk.
    apply bind_Ok_inv in Hk as (y & _ & Hk).
    apply bind_Ok_inv in Hk as (k' & Hk' & Hk).
    injection Hk as <-. cbn. f_equal. by apply IH.
Qed.

Lemma mapM_Ok_Forall2 {A B} (f : A → result B) l k :
  mapM f l = Ok k → Forall2 (λ x y, f x = Ok y) l k.
Proof.
  revert k. induction l as [|x l IH]; intros k Hk.
  - injection Hk as <-. constructor.
  - rewrite mapM_cons in Hk.
    apply bind_Ok_inv in Hk as (y & Hy & Hk).
    apply bind_Ok_inv in Hk as (k' & Hk' & Hk).
    injection Hk as <-. constructor; auto.
Qed.

Lemma mapM_Raise_head {A B} (f : A → result B) x l e :
  f x = Raise e → mapM f (x :: l) = Raise e.
Proof. intros H. by rewrite mapM_cons, H. Qed.

Section errors.
Context {L : Libraries}.
Import CrossAssociation.

Lemma load_global_clr :
  load_global module_globals "clr"
  = Raise (NameError "name 'clr' is not defined").
Proof. reflexivity. Qed.

Lemma load_global_zscore :
  load_global module_globals "zscore"
  = Raise (NameError "name 'zscore' is not defined").
Proof. reflexivity. Qed.

Lemma utils_load_global_clr :
  load_global Utils.module_globals "clr"
  = Raise (NameError "name 'clr' is not defined").
Proof. reflexivity. Qed.

Lemma apply_rows_broadcast_Raise f df e :
  index df ≠ [] → (∀ x, f x = Raise e) →
  apply_rows_broadcast f df = Raise e.
Proof.
  intros Hne Hf. unfold apply_rows_broadcast, rows_of.
  destruct (index df) as [|i idx]; [done|].
  rewrite imap_cons. by rewrite (mapM_Raise_head _ _ _ e).
Qed.

(** C8.  With normalization 'clr' and at least one sample, the
    normalization step raises [NameError]: the module binds no name
    [clr].  No centered log-ratio is computed, in
    [cross_association_table] or in [normalize_feature_table]. *)
Theorem clr_normalization_raises_NameError (feats : DataFrame) :
  index feats ≠ [] →
  normalize_feats feats (Some "clr")
    = Raise (NameError "name 'clr' is not defined") ∧
  Utils.normalize_feature_table feats (Some "clr")
    = Raise (NameError "name 'clr' is not defined") ∧
  ∀ target method alpha multitest nsig,
    cross_association_table (AFrame feats) target method (Some "clr")
      alpha multitest nsig
    = Raise (NameError "name 'clr' is not defined").
Proof.
  intros Hne.
  assert (E : normalize_feats feats (Some "clr")
              = Raise (NameError "name 'clr' is not defined")).
  { unfold normalize_feats. rewrite decide_False by done.
    rewrite decide_True by done.
    apply apply_rows_broadcast_Raise; [done|]. intros x.
    by rewrite load_global_clr. }
  split; [done|]. split.
  - unfold Utils.normalize_feature_table. rewrite decide_False by done.
    rewrite decide_True by done.
    apply apply_rows_broadcast_Raise; [done|]. intros x.
    by rewrite utils_load_global_clr.
  - intros. unfold cross_association_table. cbn [load_feats].
    by rewrite result_bind_Ok, E.
Qed.

(** C5.  A normalization value that is none of 'log10', 'clr', 'zscore':
    when it is a non-empty string, [cross_association_table] raises
    [ValueError] with a message that quotes it, before any correlation;
    when it is [None] or the empty string, the table is left as it is.
    [normalize_feature_table] raises [ValueError] naming the value in
    every such case. *)
Theorem unrecognized_normalization_raises
    (normalize : option string) (feats : DataFrame) :
  unrecognized normalize →
  (truthy normalize →
     normalize_feats feats normalize
       = Raise (ValueError ("Incorrect normalization method: '"
                            +:+ format normalize +:+ "'")) ∧
     ∀ artifact target method alpha multitest nsig,
       load_feats artifact = Ok feats →
       cross_association_table artifact target method normalize alpha
         multitest nsig
       = Raise (ValueError ("Incorrect normalization method: '"
                            +:+ format normalize +:+ "'"))) ∧
  (¬ truthy normalize → normalize_feats feats normalize = Ok feats) ∧
  Utils.normalize_feature_table feats normalize
    = Raise (ValueError ("Incorrect normalization method: "
                         +:+ format normalize)).
Proof.
  intros (H1 & H2 & H3). split; [|split].
  - intros Ht.
    assert (E : normalize_feats feats normalize
       = Raise (ValueError ("Incorrect normalization method: '"
                            +:+ format normalize +:+ "'"))).
    { unfold normalize_feats. rewrite !decide_False by done.
      by destruct (truthy normalize). }
    split; [done|]. intros ?????? Hload. unfold cross_association_table.
    by rewrite Hload, result_bind_Ok, E.
  - intros Ht. unfold normalize_feats. rewrite !decide_False by done.
    by destruct (truthy normalize).
  - unfold Utils.normalize_feature_table. by rewrite !decide_False by done.
Qed.
End errors.
Section engine.
Context {L : Libraries}.
Import CrossAssociation.

Lemma methods_getitem_unknown method :
  method ≠ "pearson" → method ≠ "spearman" →
  methods_getitem method = Raise (KeyError method).
Proof.
  intros H1 H2. unfold methods_getitem, methods. cbn.
  rewrite !decide_False by (cbn; congruence). done.
Qed.

Lemma columns_cons_inv (df : DataFrame) :
  columns df ≠ [] → ∃ c cs, columns df = c :: cs.
Proof. destruct (columns df) as [|c cs]; [done|eauto]. Qed.

Lemma correlate_column_less (feats target : DataFrame) method :
  columns feats = [] ∨ columns target = [] →
  correlate feats target method = Ok (replicate (length (columns feats)) []).
Proof.
  unfold correlate. intros [E|E]; rewrite E; [done|].
  induction (columns feats) as [|f fs IH]; [done|].
  by rewrite mapM_cons, IH.
Qed.

(** C6.  For a method other than 'pearson' and 'spearman': when the
    feature matrix and the target matrix each have at least one column,
    the engine raises [KeyError] with the method at the first pair and
    returns no matrix, and so does the table call; when the feature matrix
    or the target matrix has no column, the method is never looked up and
    the engine returns the matrices without entries, one empty row per
    feature column. *)
Theorem unknown_method_raises_KeyError
    (feats target : DataFrame) (method : string) :
  method ≠ "pearson" → method ≠ "spearman" →
  (columns feats ≠ [] → columns target ≠ [] →
   correlate feats target method = Raise (KeyError method) ∧
   ∀ artifact normalize alpha multitest nsig feats0,
     load_feats artifact = Ok feats0 →
     normalize_feats feats0 normalize = Ok feats →
     cross_association_table artifact target method normalize alpha
       multitest nsig = Raise (KeyError method)) ∧
  (columns feats = [] ∨ columns target = [] →
   correlate feats target method
   = Ok (replicate (length (columns feats)) [])).
Proof.
  intros H1 H2. split; [|apply correlate_column_less].
  intros Hf Ht.
  assert (E : correlate feats target method = Raise (KeyError method)).
  { unfold correlate.
    destruct (columns_cons_inv feats Hf) as (f & fs & ->).
    destruct (columns_cons_inv target Ht) as (t & ts & ->).
    apply mapM_Raise_head, mapM_Raise_head.
    by rewrite methods_getitem_unknown. }
  split; [done|]. intros ?????? Hload Hnorm.
  unfold cross_association_table.
  by rewrite Hload, result_bind_Ok, Hnorm, result_bind_Ok, E.
Qed.

Lemma correlate_no_columns (feats target : DataFrame) method :
  columns feats = [] → correlate feats target method = Ok [].
Proof. intros E. unfold correlate. by rewrite E. Qed.
End engine.

(** Counterexample for C6 as stated: with no feature column the engine
    returns (empty) matrices for an unknown method. *)
Lemma unknown_method_no_columns_returns :
  "kendall" ≠ "pearson" ∧ "kendall" ≠ "spearman" ∧
  CrossAssociation.correlate (L := example_libraries)
    {| index := ["s1"; "s2"; "s3"]; series := [] |} example_target "kendall"
  = Ok [].
Proof. done. Qed.

(** Counterexample for C5 as stated: the empty string is none of the
    recognized names, and the normalization step returns the table
    unchanged. *)
Lemma empty_string_normalization_passes :
  (Some "" ∉ [None; Some "none"; Some "log10"; Some "clr"; Some "zscore"]) ∧
  CrossAssociation.normalize_feats (L := example_libraries)
    example_feats (Some "") = Ok example_feats.
Proof.
  split; [|done]. rewrite !elem_of_cons, elem_of_nil.
  intros [?|[?|[?|[?|[?|[]]]]]]; discriminate.
Qed.
(** ** Shape of the melted frame *)

Lemma fmap_zip_with_same_length {A B C D} (f : A → B → C) (h : C → D)
    (h' : A → D) (l : list A) (k : list B) :
  (∀ x y, h (f x y) = h' x) → length l = length k →
  h <$> zip_with f l k = h' <$> l.
Proof.
  intros Hh. revert k. induction l as [|x l IH]; intros [|y k] Hlen;
    try done. cbn in *. f_equal; [done|]. apply IH. lia.
Qed.

Lemma fmap_zip_with_same_length_r {A B C D} (f : A → B → C) (h : C → D)
    (h' : B → D) (l : list A) (k : list B) :
  (∀ x y, h (f x y) = h' y) → length l = length k →
  h <$> zip_with f l k = h' <$> k.
Proof.
  intros Hh. revert k. induction l as [|x l IH]; intros [|y k] Hlen;
    try done. cbn in *. f_equal; [done|]. apply IH. lia.
Qed.

Lemma grid_cons idx c cols :
  grid idx (c :: cols) = ((λ i, (i, c)) <$> idx) ++ grid idx cols.
Proof. done. Qed.

Lemma grid_length idx cols : length (grid idx cols) = length idx * length cols.
Proof.
  induction cols as [|c cols IH]; [cbn; lia|].
  rewrite grid_cons, length_app, length_fmap, IH. cbn. lia.
Qed.

Lemma grid_elem_of idx cols i c : (i, c) ∈ grid idx cols ↔ i ∈ idx ∧ c ∈ cols.
Proof.
  induction cols as [|c' cols IH].
  - cbn. rewrite !elem_of_nil. tauto.
  - rewrite grid_cons, elem_of_app, IH, list_elem_of_fmap, elem_of_cons. split.
    + intros [(i' & [= -> ->] & Hi)|[Hi Hc]]; auto.
    + intros [Hi [->|Hc]]; eauto.
Qed.

Lemma grid_NoDup idx cols : NoDup idx → NoDup cols → NoDup (grid idx cols).
Proof.
  intros Hi. induction 1 as [|c cols Hc Hcols IH]; [constructor|].
  rewrite grid_cons. apply NoDup_app. split; [|split; [|done]].
  - apply NoDup_fmap_2; [|done]. by intros ?? [=].
  - intros [i c'] (i' & [= -> ->] & Hi')%list_elem_of_fmap
      [_ Hin]%grid_elem_of. done.
Qed.

Lemma melt_keys (g : nat → list Q → Q) (idx cols : list string)
    (m : list (list Q)) :
  length idx = length m →
  (λ x : string * string * Q, x.1) <$>
    mjoin (imap (λ j c, zip_with (λ i row, (i, c, g j row)) idx m) cols)
  = grid idx cols.
Proof.
  intros Hlen. revert g. induction cols as [|c cols IH]; intros g; [done|].
  rewrite imap_cons, grid_cons. cbn [mjoin list_join]. rewrite fmap_app.
  f_equal.
  - by apply fmap_zip_with_same_length.
  - apply (IH (λ j, g (S j))).
Qed.

Lemma melt_pairs idx cols m :
  length idx = length m →
  (λ x : string * string * Q, x.1) <$> melt idx cols m = grid idx cols.
Proof. apply (melt_keys (λ j row, nth j row 0%Q)). Qed.

Lemma melt_length idx cols m :
  length idx = length m →
  length (melt idx cols m) = length idx * length cols.
Proof.
  intros Hlen. rewrite <-grid_length, <-(melt_pairs idx cols m Hlen).
  by rewrite length_fmap.
Qed.

Lemma imap_pair_fmap_snd {A} (l : list A) : (imap (λ i r, (i, r)) l).*2 = l.
Proof.
  apply list_eq. intros i. rewrite list_lookup_fmap, list_lookup_imap.
  by destruct (l !! i).
Qed.

Lemma reset_index_drop_rows df : (reset_index_drop df).*2 = df.*2.
Proof.
  unfold reset_index_drop. apply list_eq. intros i.
  rewrite !list_lookup_fmap, list_lookup_imap. by destruct (df !! i).
Qed.

Lemma reset_index_drop_index df :
  (reset_index_drop df).*1 = seq 0 (length df).
Proof.
  unfold reset_index_drop. apply list_eq. intros i.
  rewrite list_lookup_fmap, list_lookup_imap.
  destruct (df !! i) as [r|] eqn:E; cbn; symmetry.
  - apply lookup_seq. split; [done|]. by eapply lookup_lt_Some.
  - apply lookup_seq_ge. by apply lookup_ge_None.
Qed.

Lemma reset_index_drop_length df : length (reset_index_drop df) = length df.
Proof. unfold reset_index_drop. by rewrite length_imap. Qed.

Lemma pair_of_fmap df : pair_of <$> df = (λ r, (taxon r, target r)) <$> df.*2.
Proof. by rewrite <-list_fmap_compose. Qed.

Global Instance by_pval_total : Total by_pval.
Proof.
  intros a b. unfold by_pval.
  destruct (Qlt_le_dec (pval a.2) (pval b.2)); [left|right]; lra.
Qed.

Global Instance by_pval_trans : Transitive by_pval.
Proof. intros a b c. unfold by_pval. apply Qle_trans. Qed.

Section table.
Context {L : Libraries}.
Import CrossAssociation.

Lemma cross_association_table_Ok_inv
    artifact target method normalize alpha multitest nsig T :
  cross_association_table artifact target method normalize alpha multitest
    nsig = Ok T →
  ∃ feats0 feats stats df df',
    load_feats artifact = Ok feats0 ∧
    normalize_feats feats0 normalize = Ok feats ∧
    correlate feats target method = Ok stats ∧
    assemble feats target stats multitest = Ok df ∧
    (if decide (nsig ≠ 0%Z) then significance_filter df alpha nsig
     else Ok df) = Ok df' ∧
    T = {| header := melted_header;
           body := reset_index_drop (sort_values_pval df') |}.
Proof.
  unfold cross_association_table. intros HT.
  repeat inv_bind HT. injection HT as <-. eauto 12.
Qed.

(** C7.  The table returned holds the rows that were assembled and went
    through the filter, each exactly as often as there, sorted ascending by
    raw p-value; its index is 0, 1, ..., n-1, and its columns are taxon,
    target, corr, pval, adjp in this order. *)
Theorem table_sorted_reindexed_columns
    artifact target method normalize alpha multitest nsig T :
  cross_association_table artifact target method normalize alpha multitest
    nsig = Ok T →
  (∃ feats0 feats stats df df',
     load_feats artifact = Ok feats0 ∧
     normalize_feats feats0 normalize = Ok feats ∧
     correlate feats target method = Ok stats ∧
     assemble feats target stats multitest = Ok df ∧
     (if decide (nsig ≠ 0%Z) then significance_filter df alpha nsig
      else Ok df) = Ok df' ∧
     (body T).*2 ≡ₚ df'.*2) ∧
  StronglySorted (λ a b, (pval a <= pval b)%Q) (body T).*2 ∧
  (body T).*1 = seq 0 (length (body T)) ∧
  header T = ["taxon"; "target"; "corr"; "pval"; "adjp"].
Proof.
  intros (feats0 & feats & stats & df & df' & H0 & H1 & H2 & H3 & H4 & ->)
    %cross_association_table_Ok_inv. cbn [body header].
  split; [|split; [|split]].
  - exists feats0, feats, stats, df, df'. repeat split; try done.
    rewrite reset_index_drop_rows. unfold sort_values_pval.
    by rewrite merge_sort_Permutation.
  - rewrite reset_index_drop_rows.
    eapply StronglySorted_fmap with (R1 := by_pval); [done|].
    apply StronglySorted_merge_sort; apply _.
  - by rewrite reset_index_drop_index, reset_index_drop_length.
  - done.
Qed.

(** C10.  With [nsig = 0] the table does not depend on [alpha]: two
    calls that differ only in [alpha] give the same result. *)
Theorem table_independent_of_alpha_without_filter
    artifact target method normalize multitest (alpha1 alpha2 : Q) :
  cross_association_table artifact target method normalize alpha1
    multitest 0
  = cross_association_table artifact target method normalize alpha2
    multitest 0.
Proof. reflexivity. Qed.
End table.
Lemma filter_none {A} (P : A → Prop) `{!∀ x, Decision (P x)} (l : list A) :
  (∀ x, x ∈ l → ¬ P x) → filter P l = [].
Proof.
  induction l as [|a l IH]; intros HP; [done|].
  rewrite filter_cons, decide_False by (apply HP; by left).
  apply IH. intros x Hx. apply HP. by right.
Qed.

Lemma NoDup_fmap_count_one {A B} `{EqDecision B} (f : A → B) (l : list A) x :
  NoDup (f <$> l) → x ∈ f <$> l →
  length (filter (λ r, f r = x) l) = 1.
Proof.
  induction l as [|a l IH]; intros Hnd Hx; [by apply elem_of_nil in Hx|].
  cbn in Hnd, Hx. apply NoDup_cons in Hnd as [Hna Hnd].
  rewrite filter_cons. destruct (decide (f a = x)) as [<-|Hne].
  - cbn. f_equal. rewrite filter_none; [done|].
    intros y Hy Heq. apply Hna. rewrite <-Heq. by apply list_elem_of_fmap_2.
  - apply IH; [done|]. apply elem_of_cons in Hx as [->|Hx]; done.
Qed.

Section shape.
Context {L : Libraries}.
Import CrossAssociation.

Lemma imap_series_columns (s : list (string * list Q))
    (g : nat → string * list Q → list Q) :
  (imap (λ j c, (c.1, g j c)) s).*1 = s.*1.
Proof.
  apply list_eq. intros i. rewrite !list_lookup_fmap, list_lookup_imap.
  by destruct (s !! i).
Qed.

Lemma apply_rows_broadcast_columns f df df' :
  apply_rows_broadcast f df = Ok df' → columns df' = columns df.
Proof.
  unfold apply_rows_broadcast. intros (rs & _ & [= <-])%bind_Ok_inv.
  unfold columns. cbn [series].
  apply (imap_series_columns _ (λ j _, (λ r, nth j r 0%Q) <$> rs)).
Qed.

Lemma normalize_feats_columns feats0 normalize feats :
  normalize_feats feats0 normalize = Ok feats →
  columns feats = columns feats0.
Proof.
  unfold normalize_feats. repeat case_decide.
  - intros [= <-]. unfold columns, applymap. cbn [series].
    by rewrite <-list_fmap_compose.
  - apply apply_rows_broadcast_columns.
  - by rewrite load_global_zscore.
  - destruct (negb (truthy normalize)); [by intros [= <-]|done].
Qed.

Lemma correlate_shape feats target method stats :
  correlate feats target method = Ok stats →
  length stats = length (columns feats) ∧
  Forall (λ row, length row = length (columns target)) stats.
Proof.
  unfold correlate. intros Hs. split; [by apply mapM_Ok_length in Hs|].
  apply mapM_Ok_Forall2 in Hs. apply Forall_forall. intros row Hrow.
  apply list_elem_of_lookup in Hrow as [i Hi].
  destruct (Forall2_lookup_r _ _ _ _ _ Hs Hi) as (f & _ & Hf).
  by apply mapM_Ok_length in Hf.
Qed.

Lemma assemble_pairs feats target stats multitest df :
  length stats = length (columns feats) →
  assemble feats target stats multitest = Ok df →
  pair_of <$> df = grid (columns feats) (columns target).
Proof.
  intros Hlen. unfold assemble.
  set (corr := melt _ _ ((λ r : list (Q * Q), r.*1) <$> stats)).
  set (pval := melt _ _ ((λ r : list (Q * Q), r.*2) <$> stats)).
  cbv zeta. set (df0 := zip_with _ corr pval).
  intros (adj & _ & Hdf)%bind_Ok_inv.
  case_decide as Hadj; [|done]. injection Hdf as <-.
  assert (Hc : length corr = length pval).
  { subst corr pval. rewrite !melt_length by (by rewrite length_fmap). done. }
  rewrite pair_of_fmap, imap_pair_fmap_snd.
  rewrite (fmap_zip_with_same_length _ _
             (λ r : string * string * Q * Q, (r.1.1.1, r.1.1.2)))
    by done.
  subst df0.
  rewrite (fmap_zip_with_same_length _ _ (λ c : string * string * Q, c.1))
    by (done || by intros [[??]?] [[??]?]).
  subst corr. apply melt_pairs. by rewrite length_fmap.
Qed.

(** C4.  With distinct feature columns and distinct target columns and
    [nsig = 0], the table returned has |feature columns| x |target columns|
    rows, every row is a pair of the Cartesian product, and every pair of
    the product is the pair of exactly one row. *)
Theorem full_table_is_the_cartesian_product
    artifact (tmat : DataFrame) method normalize alpha multitest feats T :
  NoDup (columns feats) → NoDup (columns tmat) →
  load_feats artifact = Ok feats →
  cross_association_table artifact tmat method normalize alpha multitest
    0 = Ok T →
  length (body T) = length (columns feats) * length (columns tmat) ∧
  (∀ r, r ∈ body T →
     taxon r.2 ∈ columns feats ∧ target r.2 ∈ columns tmat) ∧
  (∀ f t, f ∈ columns feats → t ∈ columns tmat →
     length (filter (λ r, pair_of r = (f, t)) (body T)) = 1).
Proof.
  intros Hf Ht Hload
    (feats0 & feats' & stats & df & df' & H0 & H1 & H2 & H3 & H4 & ->)
    %cross_association_table_Ok_inv.
  rewrite Hload in H0. injection H0 as <-.
  rewrite decide_False in H4 by (intros ?; done). injection H4 as <-.
  apply normalize_feats_columns in H1.
  destruct (correlate_shape _ _ _ _ H2) as [Hlen _].
  pose proof (assemble_pairs _ _ _ _ _ Hlen H3) as Hpairs.
  rewrite H1 in Hpairs. cbn [body].
  assert (Hperm : pair_of <$> reset_index_drop (sort_values_pval df)
                  ≡ₚ grid (columns feats) (columns tmat)).
  { rewrite pair_of_fmap, reset_index_drop_rows, <-pair_of_fmap.
    unfold sort_values_pval. by rewrite merge_sort_Permutation, Hpairs. }
  split; [|split].
  - rewrite <-grid_length, <-(Permutation_length Hperm). by rewrite length_fmap.
  - intros r Hr. apply grid_elem_of. rewrite <-Hperm.
    by apply (list_elem_of_fmap_2 pair_of).
  - intros f t Hfin Htin. apply NoDup_fmap_count_one.
    + rewrite Hperm. by apply grid_NoDup.
    + rewrite Hperm. by apply grid_elem_of.
Qed.
End shape.
Section heatmap.
Context {L : Libraries}.
Import CrossAssociation.

(** What the marker grid holds: the mark of a cell is decided by the raw
    p-value of its row. *)
Lemma heatmap_marker_of_row (T : Table) (alpha : Q) :
  NoDup (pair_of <$> body T) →
  ∃ call ann, heatmap_grids T alpha true = Ok call ∧
    annot call = Some ann ∧
    ∀ r, r ∈ body T →
      p_cells ann !! (target r.2, taxon r.2)
      = Some (if decide (pval r.2 <= alpha)%Q then "*" else "").
Proof.
  intros Hnd.
  assert (Hnd' : NoDup ((λ r : nat * Row, (target r.2, taxon r.2))
                        <$> body T)).
  { replace ((λ r : nat * Row, (target r.2, taxon r.2)) <$> body T)
      with (prod_swap <$> (pair_of <$> body T))
      by (by rewrite <-list_fmap_compose).
    by apply (NoDup_fmap_2 _). }
  destruct (pivot_Ok (body T) target taxon corr Hnd')
    as (gc & Hgc & _).
  destruct (pivot_Ok (body T) target taxon pval Hnd')
    as (gp & Hgp & _ & _ & _ & _ & Hcells).
  unfold heatmap_grids. rewrite Hgc, result_bind_Ok, Hgp, result_bind_Ok.
  eexists _, _. split; [done|]. split; [done|].
  intros r Hr. unfold pivot_applymap. cbn [p_cells]. rewrite lookup_fmap.
  assert (p_cells gp !! (target r.2, taxon r.2) = Some (pval r.2)) as ->
    by (apply Hcells; eauto).
  done.
Qed.
End heatmap.

(** C3.  The heatmap marker of a cell is decided by the raw p-value, not
    by the adjusted one: on the example (p-values 0.121 and 0.667, adjusted
    0.242 and 0.667, alpha 0.15) the cell (t1, f1) is marked '*' although
    its adjusted p-value exceeds alpha. *)
Theorem heatmap_star_follows_raw_pvalue :
  ∃ call ann T r,
    CrossAssociation.cross_association_heatmap (L := example_libraries)
      (CrossAssociation.AFrame example_feats) example_target "pearson" None
      (15 # 100)%Q "fdr_bh" 0 true = Ok call ∧
    CrossAssociation.annot call = Some ann ∧
    p_cells ann !! ("t1", "f1") = Some "*" ∧
    CrossAssociation.cross_association_table (L := example_libraries)
      (CrossAssociation.AFrame example_feats) example_target "pearson" None
      (15 # 100)%Q "fdr_bh" 0 = Ok T ∧
    r ∈ body T ∧ pair_of r = ("f1", "t1") ∧
    (pval r.2 <= 15 # 100)%Q ∧ ¬ (adjp r.2 <= 15 # 100)%Q.
Proof.
  eexists _, _, _, (0, _).
  split; [vm_compute; reflexivity|].
  split; [reflexivity|].
  split; [vm_compute; reflexivity|].
  split; [vm_compute; reflexivity|].
  split; [left|].
  split; [reflexivity|].
  split; cbn; [discriminate|]. intros Hle. by apply Hle.
Qed.
Lemma mapM_Ok_intro {A B} (f : A → result B) (l : list A) :
  (∀ x, x ∈ l → ∃ y, f x = Ok y) → ∃ k, mapM f l = Ok k.
Proof.
  induction l as [|x l IH]; intros Hf; [by exists []|].
  destruct (Hf x) as [y Hy]; [by left|].
  destruct IH as [k Hk]; [intros z Hz; apply Hf; by right|].
  exists (y :: k). by rewrite mapM_cons, Hy, result_bind_Ok, Hk.
Qed.

Lemma getitem_Series (df : DataFrame) (c : string) :
  NoDup (columns df) → c ∈ columns df → ∃ v, getitem df c = Ok (Series v).
Proof.
  unfold columns, getitem. induction (series df) as [|[c' v'] s IH];
    intros Hnd Hc; [by apply elem_of_nil in Hc|].
  cbn in Hnd, Hc. apply NoDup_cons in Hnd as [Hna Hnd].
  rewrite filter_cons. cbn [fst]. destruct (decide (c' = c)) as [->|Hne].
  - rewrite filter_none; [by eexists|].
    intros [c'' v''] Hin Heq. cbn in Heq. subst c''. apply Hna.
    by apply (list_elem_of_fmap_2 fst) in Hin.
  - apply IH; [done|]. apply elem_of_cons in Hc as [->|Hc]; done.
Qed.

Section returns.
Context {L : Libraries}.
Import CrossAssociation Multitest MultitestFacts.

(** The call returns a table whenever the statistic returns on every
    pair of columns and there is at least one pair. *)
Lemma cross_association_table_returns
    (feats tmat : DataFrame) (method : string) (alpha : Q) (nsig : Z) :
  NoDup (columns feats) → NoDup (columns tmat) →
  columns feats ≠ [] → columns tmat ≠ [] →
  (∀ f x y, (method, f) ∈ methods → ∃ r, f (Series x) (Series y) = Ok r) →
  method ∈ ["pearson"; "spearman"] →
  ∃ T, cross_association_table (AFrame feats) tmat method None alpha
         "fdr_bh" 0 = Ok T.
Proof.
  intros Hf Ht Hfne Htne Hstat Hm.
  assert (∃ f, methods_getitem method = Ok f ∧ (method, f) ∈ methods)
    as (f & Hget & Hin).
  { unfold methods_getitem, methods.
    apply elem_of_cons in Hm as [->|Hm].
    - eexists. split; [reflexivity|]. left.
    - apply list_elem_of_singleton in Hm as ->.
      eexists. split; [reflexivity|]. right. left. }
  destruct (mapM_Ok_intro
    (λ fi, mapM (λ tj, f ← methods_getitem method;
                        x ← getitem feats fi; y ← getitem tmat tj; f x y)
                (columns tmat)) (columns feats)) as [stats Hstats].
  { intros fi Hfi. apply mapM_Ok_intro. intros tj Htj.
    destruct (getitem_Series feats fi Hf Hfi) as [x Hx].
    destruct (getitem_Series tmat tj Ht Htj) as [y Hy].
    destruct (Hstat f x y Hin) as [r Hr]. exists r.
    by rewrite Hget, result_bind_Ok, Hx, result_bind_Ok, Hy, result_bind_Ok. }
  fold (correlate feats tmat method) in Hstats.
  destruct (correlate_shape _ _ _ _ Hstats) as [Hlen _].
  unfold cross_association_table. cbn [load_feats].
  rewrite result_bind_Ok.
  replace (normalize_feats feats None) with (Ok feats) by done.
  rewrite result_bind_Ok, Hstats, result_bind_Ok.
  unfold assemble.
  set (corr := melt _ _ ((λ r : list (Q * Q), r.*1) <$> stats)).
  set (pval := melt _ _ ((λ r : list (Q * Q), r.*2) <$> stats)).
  cbv zeta. set (df0 := zip_with _ corr pval).
  assert (Hdf0 : length df0 = length (columns feats) * length (columns tmat)).
  { subst df0 corr pval.
    rewrite length_zip_with, !melt_length by (by rewrite length_fmap). lia. }
  assert (Hne : snd <$> df0 ≠ []).
  { intros E. apply (f_equal length) in E. rewrite length_fmap, Hdf0 in E.
    cbn in E. destruct (columns feats), (columns tmat); cbn in E; done. }
  rewrite (multipletests_fdr_bh _ _ Hne), result_bind_Ok.
  rewrite decide_True
    by (by rewrite scatter_length, corrected_length, length_fmap).
  rewrite result_bind_Ok. rewrite decide_False by (intros ?; done).
  rewrite result_bind_Ok. by eexists.
Qed.
End returns.
(** ** The theorems at concrete inputs *)

Lemma fdr_bh_adjusted_values_witness :
  ([1 # 2; 1 # 4]%Q ≠ [] ∧ Forall in_unit [1 # 2; 1 # 4]%Q) ∧
  ∃ adj, Multitest.multipletests (multipletests_other (Libraries := example_libraries))
           [1 # 2; 1 # 4]%Q "fdr_bh" = Ok adj ∧ length adj = 2.
Proof.
  assert (H1 : [1 # 2; 1 # 4]%Q ≠ []) by discriminate.
  assert (H2 : Forall in_unit [1 # 2; 1 # 4]%Q)
    by (repeat constructor; discriminate).
  split; [by split|].
  destruct (proj1 (fdr_bh_adjusted_values
                     (multipletests_other (Libraries := example_libraries)))
              _ H1 H2) as (adj & Hadj & Hlen & _).
  exists adj. by split.
Defined.

Lemma fdr_bh_inflationary_and_monotone_witness :
  (Forall in_unit [1 # 2; 1 # 4]%Q ∧ [1 # 2; 1 # 4]%Q ≠ []) ∧
  ∃ adj, Multitest.multipletests (multipletests_other (Libraries := example_libraries))
           [1 # 2; 1 # 4]%Q "fdr_bh" = Ok adj ∧
         ∀ i, i < 2 → (nth i [1 # 2; 1 # 4] 0 <= nth i adj 0)%Q.
Proof.
  assert (H1 : [1 # 2; 1 # 4]%Q ≠ []) by discriminate.
  assert (H2 : Forall in_unit [1 # 2; 1 # 4]%Q)
    by (repeat constructor; discriminate).
  split; [by split|].
  destruct (fdr_bh_inflationary_and_monotone
              (multipletests_other (Libraries := example_libraries)) _ H2 H1)
    as (adj & Hadj & Hinfl & _).
  exists adj. by split.
Defined.

Lemma significance_filter_intersection_witness :
  NoDup (pair_of <$> example_rows) ∧
  significance_filter example_rows (5 # 100)%Q 1
  = Ok (filter (λ r : nat * Row,
          (1 ≤ taxon_count example_rows (5 # 100)%Q (taxon r.2))%Z ∧
          (1 ≤ target_count example_rows (5 # 100)%Q (target r.2))%Z)
        example_rows).
Proof.
  assert (H : NoDup (pair_of <$> example_rows))
    by (apply (bool_decide_unpack _); vm_compute; exact I).
  split; [exact H|].
  exact (significance_filter_intersection example_rows (5 # 100)%Q 1 H).
Defined.

Lemma full_table_is_the_cartesian_product_witness :
  (NoDup (columns example_feats) ∧ NoDup (columns example_target)) ∧
  ∃ T, CrossAssociation.cross_association_table (L := example_libraries)
         (CrossAssociation.AFrame example_feats) example_target "pearson"
         None (5 # 100)%Q "fdr_bh" 0 = Ok T ∧
       length (body T) = 1 * 2.
Proof.
  assert (H1 : NoDup (columns example_feats))
    by (apply (bool_decide_unpack _); vm_compute; exact I).
  assert (H2 : NoDup (columns example_target))
    by (apply (bool_decide_unpack _); vm_compute; exact I).
  split; [by split|]. eexists. split; [vm_compute; reflexivity|].
  eapply (full_table_is_the_cartesian_product (L := example_libraries)
            (CrossAssociation.AFrame example_feats) example_target "pearson"
            None (5 # 100)%Q "fdr_bh" example_feats _ H1 H2 eq_refl).
  vm_compute. reflexivity.
Defined.

Lemma unrecognized_normalization_raises_witness :
  (unrecognized (Some "none") ∧ truthy (Some "none")) ∧
  CrossAssociation.normalize_feats (L := example_libraries) example_feats
    (Some "none")
  = Raise (ValueError "Incorrect normalization method: 'none'").
Proof.
  assert (H1 : unrecognized (Some "none")) by (repeat split; discriminate).
  split; [split; [exact H1|exact I]|].
  exact (proj1 (proj1 (unrecognized_normalization_raises
                         (L := example_libraries) (Some "none") example_feats
                         H1) I)).
Defined.

Lemma unknown_method_raises_KeyError_witness :
  ("kendall" ≠ "pearson" ∧ "kendall" ≠ "spearman" ∧
   columns example_feats ≠ [] ∧ columns example_target ≠ [] ∧
   columns example_no_columns = []) ∧
  CrossAssociation.correlate (L := example_libraries) example_feats
    example_target "kendall" = Raise (KeyError "kendall") ∧
  CrossAssociation.correlate (L := example_libraries) example_feats
    example_no_columns "kendall" = Ok [[]] ∧
  CrossAssociation.correlate (L := example_libraries) example_no_columns
    example_target "kendall" = Ok [].
Proof.
  assert (H1 : "kendall" ≠ "pearson") by discriminate.
  assert (H2 : "kendall" ≠ "spearman") by discriminate.
  assert (H3 : columns example_feats ≠ []) by discriminate.
  assert (H4 : columns example_target ≠ []) by discriminate.
  assert (H5 : columns example_no_columns = []) by reflexivity.
  split; [by repeat split|]. split; [|split].
  - exact (proj1 (proj1 (unknown_method_raises_KeyError
                           (L := example_libraries) example_feats
                           example_target "kendall" H1 H2) H3 H4)).
  - exact (proj2 (unknown_method_raises_KeyError (L := example_libraries)
                    example_feats example_no_columns "kendall" H1 H2)
                 (or_intror H5)).
  - exact (proj2 (unknown_method_raises_KeyError (L := example_libraries)
                    example_no_columns example_target "kendall" H1 H2)
                 (or_introl H5)).
Defined.

Lemma table_sorted_reindexed_columns_witness :
  ∃ T, CrossAssociation.cross_association_table (L := example_libraries)
         (CrossAssociation.AFrame example_feats) example_target_reversed
         "pearson" None (5 # 100)%Q "fdr_bh" 0 = Ok T ∧
       (pair_of <$> body T = [("f1", "t1"); ("f1", "t2")] ∧
        pval <$> (body T).*2 = [121 # 1000; 667 # 1000]%Q) ∧
       (∃ df, (body T).*2 ≡ₚ df.*2 ∧
              pair_of <$> df = [("f1", "t2"); ("f1", "t1")]) ∧
       StronglySorted (λ a b, (pval a <= pval b)%Q) (body T).*2 ∧
       (body T).*1 = seq 0 (length (body T)) ∧
       header T = ["taxon"; "target"; "corr"; "pval"; "adjp"].
Proof.
  eexists.
  assert (H : CrossAssociation.cross_association_table
                (L := example_libraries)
                (CrossAssociation.AFrame example_feats)
                example_target_reversed "pearson" None (5 # 100)%Q "fdr_bh" 0
              = Ok _) by (vm_compute; reflexivity).
  split; [exact H|]. split; [by split|].
  destruct (table_sorted_reindexed_columns (L := example_libraries)
              _ _ _ _ _ _ _ _ H)
    as ((feats0 & feats & stats & df & df' & H0 & H1 & H2 & H3 & H4 & Hperm)
        & Hsorted & Hidx & Hhdr).
  split; [|by repeat split].
  exists df'. split; [exact Hperm|].
  injection H0 as <-. injection H1 as <-.
  vm_compute in H2. injection H2 as <-.
  vm_compute in H3. injection H3 as <-.
  injection H4 as <-. reflexivity.
Defined.

Lemma clr_normalization_raises_NameError_witness :
  index example_feats ≠ [] ∧
  CrossAssociation.normalize_feats (L := example_libraries) example_feats
    (Some "clr")
  = Raise (NameError "name 'clr' is not defined").
Proof.
  assert (H1 : index example_feats ≠ []) by discriminate.
  split; [exact H1|].
  exact (proj1 (clr_normalization_raises_NameError (L := example_libraries)
                  example_feats H1)).
Defined.

(** * Further properties of the code *)

(** ** Normalization *)

Section normalization_more.
Context {L : Libraries}.
Import CrossAssociation.

Lemma apply_rows_broadcast_index f df df' :
  apply_rows_broadcast f df = Ok df' → index df' = index df.
Proof.
  unfold apply_rows_broadcast. by intros (rs & _ & [= <-])%bind_Ok_inv.
Qed.

Lemma utils_load_global_zscore :
  load_global Utils.module_globals "zscore"
  = Raise (NameError "name 'zscore' is not defined").
Proof. reflexivity. Qed.

(** Whenever a normalization returns, in either module, the frame keeps
    its row labels and its column labels. *)
Theorem normalization_keeps_labels
    (feats0 feats : DataFrame) (normalize : option string) :
  normalize_feats feats0 normalize = Ok feats
  ∨ Utils.normalize_feature_table feats0 normalize = Ok feats →
  index feats = index feats0 ∧ columns feats = columns feats0.
Proof.
  intros [Hn|Hn].
  - split; [|by eapply normalize_feats_columns].
    revert Hn. unfold normalize_feats. repeat case_decide.
    + by intros [= <-].
    + apply apply_rows_broadcast_index.
    + by rewrite load_global_zscore.
    + destruct (negb (truthy normalize)); [by intros [= <-]|done].
  - revert Hn. unfold Utils.normalize_feature_table. repeat case_decide.
    + intros [= <-]. split; [done|]. unfold columns, applymap. cbn [series].
      by rewrite <-list_fmap_compose.
    + intros Hn. split; [by eapply apply_rows_broadcast_index|].
      by eapply apply_rows_broadcast_columns.
    + by rewrite utils_load_global_zscore.
    + done.
Qed.

(** 'zscore' raises [NameError] on every frame, rows or no rows: the name
    is evaluated before [apply] is entered, and no correlation is
    computed. *)
Theorem zscore_normalization_raises_NameError (feats : DataFrame) :
  normalize_feats feats (Some "zscore")
    = Raise (NameError "name 'zscore' is not defined") ∧
  Utils.normalize_feature_table feats (Some "zscore")
    = Raise (NameError "name 'zscore' is not defined") ∧
  ∀ tmat method alpha multitest nsig marksig,
    cross_association_table (AFrame feats) tmat method (Some "zscore")
      alpha multitest nsig
    = Raise (NameError "name 'zscore' is not defined") ∧
    cross_association_heatmap (AFrame feats) tmat method (Some "zscore")
      alpha multitest nsig marksig
    = Raise (NameError "name 'zscore' is not defined").
Proof.
  assert (E : normalize_feats feats (Some "zscore")
              = Raise (NameError "name 'zscore' is not defined")).
  { unfold normalize_feats. rewrite !decide_False by done.
    rewrite decide_True by done. by rewrite load_global_zscore. }
  split; [done|]. split.
  - unfold Utils.normalize_feature_table. rewrite !decide_False by done.
    rewrite decide_True by done. by rewrite utils_load_global_zscore.
  - intros.
    assert (E' : cross_association_table (AFrame feats) tmat method
                   (Some "zscore") alpha multitest nsig
                 = Raise (NameError "name 'zscore' is not defined")).
    { unfold cross_association_table. cbn [load_feats].
      by rewrite result_bind_Ok, E. }
    split; [done|]. unfold cross_association_heatmap. by rewrite E'.
Qed.
End normalization_more.

(** ** The significance filter *)

Lemma significance_filter_Ok (df : list (nat * Row)) (alpha : Q) (k : Z) :
  NoDup (pair_of <$> df) →
  significance_filter df alpha k =
  Ok (filter (λ r : nat * Row,
        (k ≤ taxon_count df alpha (taxon r.2))%Z ∧
        (k ≤ target_count df alpha (target r.2))%Z) df).
Proof.
  intros Hnd. unfold significance_filter.
  destruct (pivot_Ok df taxon target adjp Hnd) as (g & Hg & Hidx & Hcol & _).
  rewrite Hg, result_bind_Ok. cbv zeta. f_equal. unfold keep_isin.
  rewrite list_filter_filter. apply filter_ext_in. intros r Hr.
  rewrite (taxon_survivors_spec df alpha Hnd g Hg),
          (target_survivors_spec df alpha Hnd g Hg), Hidx, Hcol.
  split; [intros [[_ H1] [_ H2]]; done|intros [H1 H2]; eauto 10].
Qed.

Lemma filter_length_mono {A} (P Q : A → Prop)
    `{!∀ x, Decision (P x), !∀ x, Decision (Q x)} (l : list A) :
  (∀ x, P x → Q x) → length (filter P l) ≤ length (filter Q l).
Proof.
  intros HPQ. induction l as [|a l IH]; [done|].
  rewrite !filter_cons. destruct (decide (P a)) as [HP|HP].
  - rewrite decide_True by auto. cbn. lia.
  - destruct (decide (Q a)); cbn; lia.
Qed.

Lemma taxon_count_mono df (alpha1 alpha2 : Q) t :
  (alpha1 <= alpha2)%Q →
  (taxon_count df alpha1 t ≤ taxon_count df alpha2 t)%Z.
Proof.
  intros Hle. unfold taxon_count. apply inj_le, filter_length_mono.
  intros r [? ?]. split; [done|]. by etrans.
Qed.

Lemma target_count_mono df (alpha1 alpha2 : Q) t :
  (alpha1 <= alpha2)%Q →
  (target_count df alpha1 t ≤ target_count df alpha2 t)%Z.
Proof.
  intros Hle. unfold target_count. apply inj_le, filter_length_mono.
  intros r [? ?]. split; [done|]. by etrans.
Qed.

(** The filter only removes rows: what it returns is a sublist of what it
    was given, rows, order and index labels untouched. *)
Lemma significance_filter_sublist
    (df df' : list (nat * Row)) (alpha : Q) (k : Z) :
  significance_filter df alpha k = Ok df' → df' `sublist_of` df.
Proof.
  unfold significance_filter. intros (g & _ & [= <-])%bind_Ok_inv.
  unfold keep_isin. etrans; apply sublist_filter.
Qed.

(** Raising [alpha] or lowering the minimum count never loses a row. *)
Theorem significance_filter_monotone
    (df df1 df2 : list (nat * Row)) (alpha1 alpha2 : Q) (k1 k2 : Z) :
  NoDup (pair_of <$> df) →
  (alpha1 <= alpha2)%Q → (k2 ≤ k1)%Z →
  significance_filter df alpha1 k1 = Ok df1 →
  significance_filter df alpha2 k2 = Ok df2 →
  df1 `sublist_of` df2.
Proof.
  intros Hnd Ha Hk. rewrite !significance_filter_Ok by done.
  intros [= <-] [= <-].
  rewrite <-(list_filter_filter_l
    (λ r : nat * Row,
       (k1 ≤ taxon_count df alpha1 (taxon r.2))%Z ∧
       (k1 ≤ target_count df alpha1 (target r.2))%Z)
    (λ r : nat * Row,
       (k2 ≤ taxon_count df alpha2 (taxon r.2))%Z ∧
       (k2 ≤ target_count df alpha2 (target r.2))%Z)).
  - apply sublist_filter.
  - intros r [H1 H2].
    pose proof (taxon_count_mono df alpha1 alpha2 (taxon r.2) Ha).
    pose proof (target_count_mono df alpha1 alpha2 (target r.2) Ha).
    split; lia.
Qed.

Lemma filter_all {A} (P : A → Prop) `{!∀ x, Decision (P x)} (l : list A) :
  (∀ x, x ∈ l → P x) → filter P l = l.
Proof.
  induction l as [|a l IH]; intros HP; [done|].
  rewrite filter_cons, decide_True by (apply HP; by left).
  f_equal. apply IH. intros x Hx. apply HP. by right.
Qed.

(** A minimum count that is zero or negative removes nothing. *)
Lemma significance_filter_nonpositive
    (df : list (nat * Row)) (alpha : Q) (k : Z) :
  NoDup (pair_of <$> df) → (k ≤ 0)%Z →
  significance_filter df alpha k = Ok df.
Proof.
  intros Hnd Hk. rewrite significance_filter_Ok by done. f_equal.
  apply filter_all. intros r _. unfold taxon_count, target_count. lia.
Qed.

(** ** The rows of the table *)

Section assembled_rows.
Import Multitest MultitestFacts.

Lemma zip_with_zip_with_same {A B C D E} (h : C → D → E)
    (a : A → B → C) (b : A → B → D) (l : list A) (k : list B) :
  zip_with h (zip_with a l k) (zip_with b l k)
  = zip_with (λ x y, h (a x y) (b x y)) l k.
Proof.
  revert k. induction l as [|x l IH]; intros [|y k]; try done.
  cbn. by rewrite IH.
Qed.

(** The two melted frames, zipped, are one pass over the matrix. *)
Lemma zip_melted {V} (idx cols : list string) (stats : list (list V))
    (g1 g2 : nat → list V → Q)
    (h : string * string * Q → string * string * Q → string * string * Q * Q) :
  (∀ i c v w, h (i, c, v) (i, c, w) = (i, c, v, w)) →
  zip_with h
    (mjoin (imap (λ j c, zip_with (λ i row, (i, c, g1 j row)) idx stats) cols))
    (mjoin (imap (λ j c, zip_with (λ i row, (i, c, g2 j row)) idx stats) cols))
  = mjoin (imap (λ j c,
      zip_with (λ i row, (i, c, g1 j row, g2 j row)) idx stats) cols).
Proof.
  intros Hh. revert g1 g2. induction cols as [|c cols IH]; intros g1 g2;
    [done|].
  rewrite !imap_cons. cbn [mjoin list_join].
  rewrite zip_with_app by (by rewrite !length_zip_with).
  f_equal.
  - rewrite zip_with_zip_with_same. apply zip_with_ext; [|done..].
    intros. apply Hh.
  - apply (IH (λ j, g1 (S j)) (λ j, g2 (S j))).
Qed.

Lemma melted_rows (idx cols : list string) (stats : list (list (Q * Q))) :
  zip_with (λ c p : string * string * Q, (c.1.1, c.1.2, c.2, p.2))
    (melt idx cols ((λ r : list (Q * Q), r.*1) <$> stats))
    (melt idx cols ((λ r : list (Q * Q), r.*2) <$> stats))
  = mjoin (imap (λ j c,
      zip_with (λ i (row : list (Q * Q)),
                  (i, c, nth j row.*1 0%Q, nth j row.*2 0%Q)) idx stats) cols).
Proof.
  unfold melt.
  rewrite <-(zip_melted idx cols stats
               (λ j row, nth j row.*1 0%Q) (λ j row, nth j row.*2 0%Q)
               (λ c p : string * string * Q, (c.1.1, c.1.2, c.2, p.2)))
    by done.
  f_equal; f_equal; apply imap_ext; intros j c _; by rewrite zip_with_fmap_r.
Qed.

(** Where an element of the melted rows comes from. *)
Lemma melted_rows_elem_of (idx cols : list string)
    (stats : list (list (Q * Q))) (e : string * string * Q * Q) :
  e ∈ mjoin (imap (λ j c,
      zip_with (λ i (row : list (Q * Q)),
                  (i, c, nth j row.*1 0%Q, nth j row.*2 0%Q)) idx stats) cols)
  → ∃ i j fi tj row,
      idx !! i = Some fi ∧ cols !! j = Some tj ∧ stats !! i = Some row ∧
      e = (fi, tj, nth j row.*1 0%Q, nth j row.*2 0%Q).
Proof.
  intros (l & He & Hl)%list_elem_of_join.
  apply elem_of_lookup_imap in Hl as (j & tj & -> & Hj).
  apply elem_of_lookup_zip_with in He as (i & fi & row & -> & Hi & Hrow).
  eauto 10.
Qed.
End assembled_rows.

Section table_rows.
Context {L : Libraries}.
Import CrossAssociation Multitest MultitestFacts.

(** The rows [assemble] builds, before filtering and sorting. *)
Lemma assemble_Ok_inv feats tmat stats multitest df :
  assemble feats tmat stats multitest = Ok df →
  ∃ df0 adj,
    df0 = mjoin (imap (λ j c,
      zip_with (λ i (row : list (Q * Q)),
                  (i, c, nth j row.*1 0%Q, nth j row.*2 0%Q))
        (columns feats) stats) (columns tmat)) ∧
    multipletests multipletests_other (snd <$> df0) multitest = Ok adj ∧
    length adj = length df0 ∧
    df = imap (λ i r, (i, r))
           (zip_with (λ (r : string * string * Q * Q) a,
              {| taxon := r.1.1.1; target := r.1.1.2; corr := r.1.2;
                 pval := r.2; adjp := a |}) df0 adj).
Proof.
  unfold assemble. cbv zeta. rewrite melted_rows.
  intros (adj & Hadj & Hdf)%bind_Ok_inv.
  case_decide as Hlen; [|done]. injection Hdf as <-. eauto 10.
Qed.

(** Every row of a returned table is a row of the assembled frame. *)
Lemma table_rows_assembled
    artifact tmat method normalize alpha multitest nsig T r :
  cross_association_table artifact tmat method normalize alpha multitest nsig
    = Ok T →
  r ∈ (body T).*2 →
  ∃ feats0 feats stats df,
    load_feats artifact = Ok feats0 ∧
    normalize_feats feats0 normalize = Ok feats ∧
    correlate feats tmat method = Ok stats ∧
    assemble feats tmat stats multitest = Ok df ∧
    r ∈ df.*2.
Proof.
  intros (feats0 & feats & stats & df & df' & H0 & H1 & H2 & H3 & H4 & ->)
    %cross_association_table_Ok_inv. cbn [body].
  rewrite reset_index_drop_rows. unfold sort_values_pval.
  rewrite merge_sort_Permutation. intros Hr.
  exists feats0, feats, stats, df. repeat split; try done.
  case_decide.
  - apply significance_filter_sublist in H4.
    eapply elem_of_sublist; [exact Hr|]. by apply fmap_sublist.
  - by injection H4 as <-.
Qed.

Lemma correlate_entry feats tmat method stats i j fi tj :
  correlate feats tmat method = Ok stats →
  columns feats !! i = Some fi → columns tmat !! j = Some tj →
  ∃ row cp f x y,
    stats !! i = Some row ∧ row !! j = Some cp ∧
    methods_getitem method = Ok f ∧ getitem feats fi = Ok x ∧
    getitem tmat tj = Ok y ∧ f x y = Ok cp.
Proof.
  unfold correlate. intros Hs Hi Hj.
  apply mapM_Ok_Forall2 in Hs.
  destruct (Forall2_lookup_l _ _ _ _ _ Hs Hi) as (row & Hrow & Hr).
  apply mapM_Ok_Forall2 in Hr.
  destruct (Forall2_lookup_l _ _ _ _ _ Hr Hj) as (cp & Hcp & Hc).
  apply bind_Ok_inv in Hc as (f & Hf & Hc).
  apply bind_Ok_inv in Hc as (x & Hx & Hc).
  apply bind_Ok_inv in Hc as (y & Hy & Hc).
  eauto 12.
Qed.

(** A row of the assembled frame carries the statistic of the column of
    its taxon against the column of its target, and the adjusted value
    the correction gave at its position. *)
Lemma assembled_row_origin feats tmat method stats multitest df r :
  correlate feats tmat method = Ok stats →
  assemble feats tmat stats multitest = Ok df →
  r ∈ df.*2 →
  ∃ f x y ps adj k,
    methods_getitem method = Ok f ∧
    getitem feats (taxon r) = Ok x ∧ getitem tmat (target r) = Ok y ∧
    f x y = Ok (corr r, pval r) ∧
    multipletests multipletests_other ps multitest = Ok adj ∧
    ps !! k = Some (pval r) ∧ adj !! k = Some (adjp r) ∧
    ∀ p, p ∈ ps → ∃ f' x' y' c', (method, f') ∈ methods ∧
                     f' x' y' = Ok (c', p).
Proof.
  intros Hs (df0 & adj & Hdf0 & Hadj & Hlen & ->)%assemble_Ok_inv Hr.
  rewrite imap_pair_fmap_snd in Hr.
  apply elem_of_lookup_zip_with in Hr as (k & e & a & -> & He & Ha).
  assert (Horigin : ∀ e, e ∈ df0 →
    ∃ f x y, methods_getitem method = Ok f ∧
      getitem feats e.1.1.1 = Ok x ∧ getitem tmat e.1.1.2 = Ok y ∧
      f x y = Ok (e.1.2, e.2)).
  { intros e' He'. rewrite Hdf0 in He'.
    apply melted_rows_elem_of in He'
      as (i & j & fi & tj & row & Hi & Hj & Hrow & ->).
    destruct (correlate_entry _ _ _ _ i j fi tj Hs Hi Hj)
      as (row' & [c p] & f & x & y & Hrow' & Hcp & Hf & Hx & Hy & Hfxy).
    rewrite Hrow in Hrow'. injection Hrow' as <-.
    exists f, x, y. cbn. repeat split; try done.
    by rewrite !nth_lookup, !list_lookup_fmap, Hcp. }
  destruct (Horigin e) as (f & x & y & Hf & Hx & Hy & Hfxy).
  { by eapply list_elem_of_lookup_2. }
  exists f, x, y, (snd <$> df0), adj, k. cbn.
  repeat split; try done.
  - by rewrite list_lookup_fmap, He.
  - intros p (e' & -> & He')%list_elem_of_fmap.
    destruct (Horigin e' He') as (f' & x' & y' & Hf' & _ & _ & Hfxy').
    exists f', x', y', e'.1.2. split; [|done].
    revert Hf'. unfold methods_getitem.
    destruct (list_find _ methods) as [[n [m g]]|] eqn:E; [|done].
    intros [= <-]. apply list_find_Some in E as (Hl & Hm & _).
    cbn in Hm. subst m. by eapply list_elem_of_lookup_2.
Qed.

(** Every row of the table holds the coefficient and the p-value that the
    chosen statistic returns on the (normalized) column of the row's taxon
    and the column of the row's target. *)
Theorem table_row_is_the_statistic_of_its_pair
    artifact tmat method normalize alpha multitest nsig T r :
  cross_association_table artifact tmat method normalize alpha multitest nsig
    = Ok T →
  r ∈ (body T).*2 →
  ∃ feats0 feats f x y,
    load_feats artifact = Ok feats0 ∧
    normalize_feats feats0 normalize = Ok feats ∧
    methods_getitem method = Ok f ∧
    getitem feats (taxon r) = Ok x ∧ getitem tmat (target r) = Ok y ∧
    f x y = Ok (corr r, pval r).
Proof.
  intros HT Hr.
  destruct (table_rows_assembled _ _ _ _ _ _ _ _ _ HT Hr)
    as (feats0 & feats & stats & df & H0 & H1 & H2 & H3 & Hin).
  destruct (assembled_row_origin _ _ _ _ _ _ _ H2 H3 Hin)
    as (f & x & y & _ & _ & _ & Hf & Hx & Hy & Hfxy & _).
  eauto 12.
Qed.
End table_rows.

Section table_more.
Context {L : Libraries}.
Import CrossAssociation Multitest MultitestFacts.

Lemma fdr_bh_bounds other (ps adj : list Q) i p a :
  Forall in_unit ps →
  multipletests other ps "fdr_bh" = Ok adj →
  ps !! i = Some p → adj !! i = Some a →
  (p <= a ∧ a <= 1)%Q.
Proof.
  intros Hunit Hadj Hp Ha.
  assert (Hne : ps ≠ []) by (intros ->; done).
  rewrite (multipletests_fdr_bh _ _ Hne) in Hadj. injection Hadj as <-.
  pose proof (lookup_lt_Some _ _ _ Hp) as Hi.
  destruct (rank_of ps i Hi) as (j & Hj & Hji).
  destruct (adjusted_lookup_rank ps j i Hji) as [E1 E2].
  rewrite nth_lookup, Ha in E1. rewrite nth_lookup, Hp in E2. cbn in E1, E2.
  pose proof (M_ge ps Hunit j Hj) as Hge. cbv beta in Hge, E1.
  destruct (sorted_unit ps Hunit j Hj) as [_ Hle1].
  rewrite E1, E2. unfold clip1. case_decide; split; lra.
Qed.

(** With the Benjamini-Hochberg correction and a statistic whose p-values
    lie in [0,1], every row of the table has [pval <= adjp <= 1]. *)
Theorem table_adjp_between_pval_and_one
    artifact tmat method normalize alpha nsig T r :
  (∀ f x y c p, (method, f) ∈ methods → f x y = Ok (c, p) → in_unit p) →
  cross_association_table artifact tmat method normalize alpha "fdr_bh" nsig
    = Ok T →
  r ∈ (body T).*2 →
  (pval r <= adjp r ∧ adjp r <= 1)%Q.
Proof.
  intros Hstat HT Hr.
  destruct (table_rows_assembled _ _ _ _ _ _ _ _ _ HT Hr)
    as (feats0 & feats & stats & df & H0 & H1 & H2 & H3 & Hin).
  destruct (assembled_row_origin _ _ _ _ _ _ _ H2 H3 Hin)
    as (f & x & y & ps & adj & k & _ & _ & _ & _ & Hadj & Hp & Ha & Hps).
  eapply fdr_bh_bounds; [|exact Hadj|exact Hp|exact Ha].
  apply Forall_forall. intros p (f' & x' & y' & c' & Hf' & Hfxy)%Hps.
  by eapply Hstat.
Qed.

(** The filter removes rows from the table and changes nothing else: the
    rows of a call with a minimum count are rows of the same call without
    it, adjusted p-values included. *)
Theorem filtered_table_rows_are_unfiltered_rows
    artifact tmat method normalize alpha multitest nsig T :
  cross_association_table artifact tmat method normalize alpha multitest nsig
    = Ok T →
  ∃ T0,
    cross_association_table artifact tmat method normalize alpha multitest 0
      = Ok T0 ∧
    length (body T) ≤ length (body T0) ∧
    ∀ r, r ∈ (body T).*2 → r ∈ (body T0).*2.
Proof.
  intros (feats0 & feats & stats & df & df' & H0 & H1 & H2 & H3 & H4 & ->)
    %cross_association_table_Ok_inv.
  eexists. split.
  { unfold cross_association_table.
    rewrite H0, result_bind_Ok, H1, result_bind_Ok, H2, result_bind_Ok, H3,
      result_bind_Ok.
    rewrite decide_False by (intros ?; done). by rewrite result_bind_Ok. }
  assert (Hsub : df' `sublist_of` df).
  { case_decide; [by eapply significance_filter_sublist|].
    by injection H4 as <-. }
  cbn [body]. split.
  - rewrite !reset_index_drop_length. unfold sort_values_pval.
    rewrite !(Permutation_length (merge_sort_Permutation _ _)).
    by apply sublist_length.
  - intros r. rewrite !reset_index_drop_rows. unfold sort_values_pval.
    rewrite !merge_sort_Permutation. intros Hr.
    eapply elem_of_sublist; [exact Hr|]. by apply fmap_sublist.
Qed.

(** The pairs of a returned table are distinct when the column labels
    are. *)
Lemma table_pairs_NoDup
    artifact tmat method normalize alpha multitest nsig feats0 T :
  NoDup (columns feats0) → NoDup (columns tmat) →
  load_feats artifact = Ok feats0 →
  cross_association_table artifact tmat method normalize alpha multitest nsig
    = Ok T →
  NoDup (pair_of <$> body T).
Proof.
  intros Hf Ht Hload
    (feats0' & feats & stats & df & df' & H0 & H1 & H2 & H3 & H4 & ->)
    %cross_association_table_Ok_inv.
  rewrite Hload in H0. injection H0 as <-.
  apply normalize_feats_columns in H1.
  destruct (correlate_shape _ _ _ _ H2) as [Hlen _].
  pose proof (assemble_pairs _ _ _ _ _ Hlen H3) as Hpairs.
  rewrite H1 in Hpairs. cbn [body].
  assert (Hsub : df' `sublist_of` df).
  { case_decide; [by eapply significance_filter_sublist|].
    by injection H4 as <-. }
  rewrite pair_of_fmap, reset_index_drop_rows, <-pair_of_fmap.
  unfold sort_values_pval. rewrite merge_sort_Permutation.
  eapply sublist_NoDup; [|by apply fmap_sublist].
  rewrite Hpairs. by apply grid_NoDup.
Qed.

(** A negative minimum count runs the filter and removes nothing: with
    distinct column labels the call equals the call with [nsig = 0]. *)
Theorem negative_nsig_is_no_filter
    (feats tmat : DataFrame) method normalize alpha multitest (nsig : Z) :
  NoDup (columns feats) → NoDup (columns tmat) → (nsig ≤ 0)%Z →
  cross_association_table (AFrame feats) tmat method normalize alpha
    multitest nsig
  = cross_association_table (AFrame feats) tmat method normalize alpha
      multitest 0.
Proof.
  intros Hf Ht Hn. unfold cross_association_table. cbn [load_feats].
  rewrite !result_bind_Ok.
  destruct (normalize_feats feats normalize) as [feats'|e] eqn:H1; [|done].
  rewrite !result_bind_Ok.
  destruct (correlate feats' tmat method) as [stats|e] eqn:H2; [|done].
  rewrite !result_bind_Ok.
  destruct (assemble feats' tmat stats multitest) as [df|e] eqn:H3; [|done].
  rewrite !result_bind_Ok.
  rewrite (decide_False (P := (0 ≠ 0)%Z)) by (intros ?; done).
  case_decide; [|done].
  rewrite significance_filter_nonpositive; [done| |done].
  apply normalize_feats_columns in H1.
  destruct (correlate_shape _ _ _ _ H2) as [Hlen _].
  rewrite (assemble_pairs _ _ _ _ _ Hlen H3), H1. by apply grid_NoDup.
Qed.

(** With distinct column labels the heatmap call returns whenever the
    table call does, and hands over the transposed grid: one row per
    target, one column per taxon, the coefficient of each table row in
    the cell of its (target, taxon); the annotation grid is there exactly
    when [marksig] is set. *)
Theorem heatmap_grid_is_the_transposed_table
    (feats tmat : DataFrame) method normalize alpha multitest nsig marksig T :
  NoDup (columns feats) → NoDup (columns tmat) →
  cross_association_table (AFrame feats) tmat method normalize alpha
    multitest nsig = Ok T →
  ∃ call,
    cross_association_heatmap (AFrame feats) tmat method normalize alpha
      multitest nsig marksig = Ok call ∧
    (∀ r, r ∈ (body T).*2 →
       p_cells (data call) !! (target r, taxon r) = Some (corr r)) ∧
    (∀ t, t ∈ p_index (data call) ↔ ∃ r, r ∈ (body T).*2 ∧ target r = t) ∧
    (∀ x, x ∈ p_columns (data call) ↔ ∃ r, r ∈ (body T).*2 ∧ taxon r = x) ∧
    (is_Some (annot call) ↔ marksig = true).
Proof.
  intros Hf Ht HT.
  pose proof (table_pairs_NoDup (AFrame feats) _ _ _ _ _ _ feats T
                Hf Ht eq_refl HT) as Hnd.
  assert (Hnd' : NoDup ((λ r : nat * Row, (target r.2, taxon r.2))
                        <$> body T)).
  { replace ((λ r : nat * Row, (target r.2, taxon r.2)) <$> body T)
      with (prod_swap <$> (pair_of <$> body T))
      by (by rewrite <-list_fmap_compose).
    by apply (NoDup_fmap_2 _). }
  destruct (pivot_Ok (body T) target taxon corr Hnd')
    as (gc & Hgc & Hidx & Hcol & _ & _ & Hcells).
  destruct (pivot_Ok (body T) target taxon pval Hnd') as (gp & Hgp & _).
  assert (Hrows : ∀ (P : Row → Prop),
    (∃ r, r ∈ body T ∧ P r.2) ↔ (∃ r, r ∈ (body T).*2 ∧ P r)).
  { intros P. split.
    - intros (r & Hr & HP). exists r.2. split; [|done].
      by apply list_elem_of_fmap_2.
    - intros (r & (r' & -> & Hr')%list_elem_of_fmap & HP). eauto. }
  exists (if marksig
          then {| data := gc;
                  annot := Some (pivot_applymap (val2sig alpha) gp);
                  fmt := "" |}
          else {| data := gc; annot := None; fmt := ".2g" |}).
  split; [|split; [|split; [|split]]].
  - unfold cross_association_heatmap. rewrite HT, result_bind_Ok.
    unfold heatmap_grids. rewrite Hgc, result_bind_Ok.
    destruct marksig; [|done]. by rewrite Hgp, result_bind_Ok.
  - intros r (r' & -> & Hr')%list_elem_of_fmap.
    assert (p_cells gc !! (target r'.2, taxon r'.2) = Some (corr r'.2))
      by (apply Hcells; eauto).
    by destruct marksig.
  - intros t. rewrite <-(Hrows (λ r, target r = t)), <-Hidx.
    by destruct marksig.
  - intros x. rewrite <-(Hrows (λ r, taxon r = x)), <-Hcol.
    by destruct marksig.
  - destruct marksig; cbn; split; first [done | by intros [? ?] | by eexists].
Qed.
End table_more.

Section nothing_significant.
Context {L : Libraries}.
Import CrossAssociation.

Lemma significance_filter_nothing_significant
    (df : list (nat * Row)) (alpha : Q) (k : Z) :
  NoDup (pair_of <$> df) → (0 < k)%Z →
  (∀ r, r ∈ df.*2 → ¬ (adjp r <= alpha)%Q) →
  significance_filter df alpha k = Ok [].
Proof.
  intros Hnd Hk Hns. rewrite significance_filter_Ok by done. f_equal.
  apply filter_none. intros r Hr [H1 _]. revert H1. unfold taxon_count.
  rewrite filter_none; [cbn; lia|].
  intros r' Hr' [_ Hle]. eapply Hns; [|exact Hle].
  by apply list_elem_of_fmap_2.
Qed.

(** When no pair is significant (no adjusted p-value of the unfiltered
    table is at most [alpha]), every positive minimum count gives the
    empty table. *)
Theorem positive_nsig_without_significant_pair_empties_the_table
    (feats tmat : DataFrame) method normalize alpha multitest (nsig : Z) T0 :
  NoDup (columns feats) → NoDup (columns tmat) → (0 < nsig)%Z →
  cross_association_table (AFrame feats) tmat method normalize alpha
    multitest 0 = Ok T0 →
  (∀ r, r ∈ (body T0).*2 → ¬ (adjp r <= alpha)%Q) →
  cross_association_table (AFrame feats) tmat method normalize alpha
    multitest nsig
  = Ok {| header := ["taxon"; "target"; "corr"; "pval"; "adjp"];
          body := [] |}.
Proof.
  intros Hf Ht Hn
    (feats0 & feats' & stats & df & df' & H0 & H1 & H2 & H3 & H4 & ->)
    %cross_association_table_Ok_inv Hns.
  cbn [load_feats] in H0. injection H0 as <-.
  rewrite decide_False in H4 by (intros ?; done). injection H4 as <-.
  cbn [body] in Hns.
  unfold cross_association_table. cbn [load_feats].
  rewrite result_bind_Ok, H1, result_bind_Ok, H2, result_bind_Ok, H3,
    result_bind_Ok.
  rewrite decide_True by lia.
  rewrite significance_filter_nothing_significant; [done| |done|].
  - apply normalize_feats_columns in H1.
    destruct (correlate_shape _ _ _ _ H2) as [Hlen _].
    rewrite (assemble_pairs _ _ _ _ _ Hlen H3), H1. by apply grid_NoDup.
  - intros r Hr. apply Hns. rewrite reset_index_drop_rows.
    unfold sort_values_pval. by rewrite merge_sort_Permutation.
Qed.
End nothing_significant.

(** ** make_manifest *)

Module CliFacts.
Import Cli.

Lemma set_path_lookup forward name path (files : Files) n :
  set_path forward name path files !! n =
  if decide (name = n) then
    let old := default ("", "") (files !! name) in
    Some (if forward then (path, old.2) else (old.1, path))
  else files !! n.
Proof.
  unfold set_path. rewrite lookup_alter. case_decide as Hn; [|by case_decide;
    [|rewrite lookup_insert_ne]].
  case_decide as Hs.
  - destruct Hs as [old Hold]. by rewrite Hold.
  - rewrite lookup_insert_eq. apply eq_None_not_Some in Hs. by rewrite Hs.
Qed.

Lemma collect_entries walk : collect walk = foldl step ∅ (entries walk).
Proof.
  unfold collect, entries. generalize (∅ : Files).
  induction walk as [|[[r d] f] walk IH]; intros acc; [done|].
  cbn [foldl]. rewrite IH. cbn [mbind list_bind]. fold (@mbind list _).
  by rewrite foldl_app, foldl_fmap.
Qed.

Lemma samples_snoc es e :
  samples (es ++ [e]) =
  samples es ++
  (if decide (is_forward e.2 ∨ is_reverse e.2)
   then [before_underscore e.2] else []).
Proof.
  unfold samples. rewrite filter_app, fmap_app. f_equal.
  rewrite filter_cons, filter_nil. by case_decide.
Qed.

Lemma last_path_snoc kind n es e :
  last_path kind n (es ++ [e]) =
  if decide (kind e.2 ∧ before_underscore e.2 = n)
  then e.1 +:+ "/" +:+ e.2 else last_path kind n es.
Proof.
  unfold last_path. rewrite filter_app, filter_cons, filter_nil.
  case_decide.
  - by rewrite last_snoc.
  - by rewrite app_nil_r.
Qed.

Lemma last_path_not_sample (kind : string → bool) n es :
  (∀ x, kind x → is_forward x ∨ is_reverse x) →
  n ∉ samples es → last_path kind n es = "".
Proof.
  intros Hkind Hn. unfold last_path. rewrite filter_none; [done|].
  intros e He [Hk Hname]. apply Hn. unfold samples.
  apply list_elem_of_fmap. exists e. split; [done|].
  apply list_elem_of_filter. split; [by apply Hkind|done].
Qed.

Lemma is_reverse_not_forward x : is_reverse x → ¬ is_forward x.
Proof.
  unfold is_reverse. destruct (is_forward x); cbn; [intros []|intros _ []].
Qed.

(** The dictionary after the loops: a sample is a key exactly when it owns
    a read file, and its entry holds the last forward and the last reverse
    path seen for it. *)
Lemma collect_lookup walk n :
  collect walk !! n =
  if decide (n ∈ samples (entries walk))
  then Some (last_path is_forward n (entries walk),
             last_path is_reverse n (entries walk))
  else None.
Proof.
  rewrite collect_entries. generalize (entries walk). intros es. revert n.
  induction es as [|[r x] es IH] using rev_ind; intros n.
  { cbn. rewrite decide_False; [done|]. by intros ?%elem_of_nil. }
  rewrite foldl_app. cbn [foldl]. unfold step at 1, visit. cbn [fst snd].
  rewrite samples_snoc, !last_path_snoc. cbn [fst snd].
  fold (is_forward x).
  assert (Hold : default ("", "") (foldl step ∅ es !! before_underscore x)
    = (last_path is_forward (before_underscore x) es,
       last_path is_reverse (before_underscore x) es)).
  { rewrite IH. case_decide as Hin; [done|]. cbn.
    rewrite !last_path_not_sample; auto. }
  assert (Hmem : ∀ m : string,
    m ∈ samples es ++ [before_underscore x] ↔
    (m ∈ samples es ∨ before_underscore x = m)).
  { intros m. rewrite elem_of_app, list_elem_of_singleton.
    split; intros [?|?]; auto. }
  destruct (is_forward x) eqn:Hf.
  - rewrite set_path_lookup, Hold. cbn [snd].
    rewrite (decide_True (P := _ ∨ _)) by (by left).
    rewrite (decide_False (P := is_reverse x ∧ _)).
    2:{ intros [Hr _]. apply is_reverse_not_forward in Hr. by rewrite Hf in Hr. }
    destruct (decide (before_underscore x = n)) as [<-|Hne].
    + rewrite decide_True by (apply Hmem; by right).
      by rewrite decide_True.
    + rewrite IH, (decide_False (P := _ ∧ _)) by (by intros [_ ?]).
      apply decide_ext. rewrite Hmem. split; [auto|by intros [?|?]].
  - assert (Hrev : is_reverse x = contains "_R2_001.fastq" x)
      by (unfold is_reverse; by rewrite Hf).
    rewrite <-Hrev. rewrite (decide_False (P := false ∧ _)) by (by intros [? _]).
    destruct (is_reverse x) eqn:Hr.
    + rewrite set_path_lookup, Hold. cbn [fst].
      rewrite (decide_True (P := _ ∨ _)) by (by right).
      destruct (decide (before_underscore x = n)) as [<-|Hne].
      * rewrite decide_True by (apply Hmem; by right).
        by rewrite decide_True.
      * rewrite IH, (decide_False (P := _ ∧ _)) by (by intros [_ ?]).
        apply decide_ext. rewrite Hmem. split; [auto|by intros [?|?]].
    + rewrite (decide_False (P := _ ∨ _)) by (by intros [?|?]).
      rewrite app_nil_r, IH.
      by rewrite (decide_False (P := _ ∧ _)) by (by intros [? _]).
Qed.
End CliFacts.

Module ManifestFacts.
Import Cli CliFacts.

Global Instance string_leb_total : Total (λ a b : string, String.leb a b).
Proof.
  intros a b. destruct (String.leb_total a b) as [H|H]; [left|right];
    by rewrite H.
Qed.

Lemma collect_keys walk n :
  n ∈ (map_to_list (collect walk)).*1 ↔ n ∈ samples (entries walk).
Proof.
  rewrite list_elem_of_fmap. split.
  - intros ([n' v] & -> & Hin). apply elem_of_map_to_list in Hin.
    rewrite collect_lookup in Hin. cbn. by case_decide.
  - intros Hn. eexists (n, _). split; [done|].
    apply elem_of_map_to_list. rewrite collect_lookup.
    by rewrite decide_True.
Qed.

(** The manifest: after the header, one line per sample that owns a read
    file, in ascending order of the sample names and without repetition;
    the line of a sample holds the path of the last forward file and the
    path of the last reverse file met for it in walking order, or nothing
    where it has none. *)
Theorem manifest_lines (walk : list (string * list string * list string)) :
  ∃ names,
    make_manifest walk =
      line headers ::
      ((λ n, line [n; last_path is_forward n (entries walk);
                   last_path is_reverse n (entries walk)]) <$> names) ∧
    Sorted (λ a b : string, String.leb a b) names ∧
    NoDup names ∧
    ∀ n, n ∈ names ↔ n ∈ samples (entries walk).
Proof.
  exists (sorted_labels ((map_to_list (collect walk)).*1)).
  assert (Hnames : ∀ n,
    n ∈ sorted_labels ((map_to_list (collect walk)).*1)
    ↔ n ∈ samples (entries walk)).
  { intros n. by rewrite sorted_labels_elem_of, collect_keys. }
  split; [|split; [|split]].
  - unfold make_manifest. cbv zeta. f_equal.
    apply Forall_fmap_ext, Forall_forall. intros n Hn%Hnames.
    rewrite collect_lookup, decide_True by done. done.
  - unfold sorted_labels. apply Sorted_merge_sort, _.
  - apply sorted_labels_NoDup.
  - done.
Qed.

Lemma entries_filter_reads walk :
  entries ((λ rdf : string * list string * list string,
              (rdf.1.1, [], filter (λ x, is_forward x ∨ is_reverse x) rdf.2))
           <$> walk)
  = filter (λ e : string * string, is_forward e.2 ∨ is_reverse e.2)
      (entries walk).
Proof.
  unfold entries. induction walk as [|[[r d] f] walk IH]; [done|].
  cbn [fmap list_fmap mbind list_bind fst snd].
  fold (@fmap list _). fold (@mbind list _).
  rewrite filter_app. f_equal; [|exact IH].
  clear. induction f as [|x f IH]; [done|].
  cbn [fmap list_fmap]. rewrite !filter_cons. cbn [snd].
  case_decide; cbn [fmap list_fmap]; by rewrite IH.
Qed.

(** Directory names and files that carry neither read pattern leave no
    trace: the manifest is that of the walk with them removed. *)
Theorem manifest_ignores_other_files
    (walk : list (string * list string * list string)) :
  make_manifest walk =
  make_manifest
    ((λ rdf : string * list string * list string,
        (rdf.1.1, [], filter (λ x, is_forward x ∨ is_reverse x) rdf.2))
     <$> walk).
Proof.
  unfold make_manifest. cbv zeta.
  set (walk' := _ <$> walk).
  assert (E : collect walk = collect walk'); [|by rewrite E].
  apply map_eq. intros n. rewrite !collect_lookup. subst walk'.
  rewrite entries_filter_reads.
  assert (Hs : samples (filter (λ e : string * string,
                 is_forward e.2 ∨ is_reverse e.2) (entries walk))
               = samples (entries walk)).
  { unfold samples. f_equal. by apply list_filter_filter_l. }
  assert (Hl : ∀ kind : string → bool,
    (∀ x, kind x → is_forward x ∨ is_reverse x) →
    last_path kind n (filter (λ e : string * string,
        is_forward e.2 ∨ is_reverse e.2) (entries walk))
    = last_path kind n (entries walk)).
  { intros kind Hk. unfold last_path. do 3 f_equal.
    apply list_filter_filter_l. intros e [? _]. by apply Hk. }
  rewrite Hs, !Hl; auto.
Qed.
End ManifestFacts.

(** ** Loading *)

Section loading.
Context {L : Libraries}.
Import CrossAssociation.

(** [import_feature_table] followed by [normalize_feature_table] does what
    the first lines of [cross_association_table] do, for every artifact,
    path or frame and each of the three method names; an object of another
    type is refused by both loaders with a [TypeError] naming the type. *)
Theorem utils_agree_with_the_table_preamble
    (artifact : pyvalue) (normalize : option string) :
  ((∀ type_repr, artifact ≠ AnObject type_repr) →
   Utils.import_feature_table artifact = load_feats artifact ∧
   (normalize ∈ [Some "log10"; Some "clr"; Some "zscore"] →
    (df ← Utils.import_feature_table artifact;
     Utils.normalize_feature_table df normalize)
    = (feats ← load_feats artifact; normalize_feats feats normalize))) ∧
  (∀ type_repr, artifact = AnObject type_repr →
   Utils.import_feature_table artifact
     = Raise (TypeError ("Incorrect input type: " +:+ type_repr)) ∧
   load_feats artifact
     = Raise (TypeError ("Incorrect feature table type: " +:+ type_repr))).
Proof.
  split.
  - intros Hobj.
    assert (E : Utils.import_feature_table artifact = load_feats artifact).
    { destruct artifact; try done. by destruct (Hobj type_repr). }
    split; [done|]. intros Hn. rewrite E.
    destruct (load_feats artifact) as [feats|e]; [|done].
    rewrite !result_bind_Ok.
    unfold Utils.normalize_feature_table, normalize_feats.
    repeat case_decide; try done.
    exfalso. rewrite !elem_of_cons, elem_of_nil in Hn.
    by destruct Hn as [->|[->|[->|[]]]].
  - by intros type_repr ->.
Qed.
End loading.

(** ** The further properties at concrete inputs *)

Lemma example_pearsonr_in_unit x y c p :
  example_pearsonr x y = Ok (c, p) → in_unit p.
Proof.
  unfold example_pearsonr. destruct x as [a|], y as [b|]; try done.
  repeat case_match; try done; intros [= <- <-]; by split.
Qed.

Lemma example_statistics_in_unit f x y c p :
  (("pearson", f) ∈ CrossAssociation.methods (L := example_libraries)) →
  f x y = Ok (c, p) → in_unit p.
Proof.
  unfold CrossAssociation.methods.
  rewrite !elem_of_cons, elem_of_nil.
  intros [Heq|[Heq|[]]]; [injection Heq as ->|discriminate Heq].
  apply example_pearsonr_in_unit.
Qed.

Lemma normalization_keeps_labels_witness :
  CrossAssociation.normalize_feats (L := example_libraries) example_feats
    (Some "log10")
  = Ok (applymap (λ x, x + 1)%Q example_feats) ∧
  index (applymap (λ x, x + 1)%Q example_feats) = index example_feats ∧
  columns (applymap (λ x, x + 1)%Q example_feats) = columns example_feats.
Proof.
  assert (H : CrossAssociation.normalize_feats (L := example_libraries)
                example_feats (Some "log10")
              = Ok (applymap (λ x, x + 1)%Q example_feats)) by reflexivity.
  split; [exact H|].
  exact (normalization_keeps_labels (L := example_libraries) example_feats
           _ (Some "log10") (or_introl H)).
Defined.

Lemma utils_agree_with_the_table_preamble_witness :
  (∀ type_repr,
     CrossAssociation.AFrame (L := example_libraries) example_feats
     ≠ CrossAssociation.AnObject type_repr) ∧
  Utils.import_feature_table (L := example_libraries)
    (CrossAssociation.AFrame example_feats)
  = CrossAssociation.load_feats (L := example_libraries)
      (CrossAssociation.AFrame example_feats).
Proof.
  assert (H : ∀ type_repr,
     CrossAssociation.AFrame (L := example_libraries) example_feats
     ≠ CrossAssociation.AnObject type_repr) by discriminate.
  split; [exact H|].
  exact (proj1 (proj1 (utils_agree_with_the_table_preamble
                         (L := example_libraries)
                         (CrossAssociation.AFrame example_feats) None) H)).
Defined.

Lemma significance_filter_monotone_witness :
  (NoDup (pair_of <$> example_rows) ∧ (1 # 100 <= 5 # 100)%Q ∧ (1 ≤ 1)%Z ∧
   significance_filter example_rows (1 # 100)%Q 1 = Ok [] ∧
   significance_filter example_rows (5 # 100)%Q 1
     = Ok (take 1 example_rows)) ∧
  [] `sublist_of` take 1 example_rows.
Proof.
  assert (H1 : NoDup (pair_of <$> example_rows))
    by (apply (bool_decide_unpack _); vm_compute; exact I).
  assert (H2 : (1 # 100 <= 5 # 100)%Q) by discriminate.
  assert (H3 : (1 ≤ 1)%Z) by discriminate.
  assert (H4 : significance_filter example_rows (1 # 100)%Q 1 = Ok [])
    by (vm_compute; reflexivity).
  assert (H5 : significance_filter example_rows (5 # 100)%Q 1
               = Ok (take 1 example_rows)) by (vm_compute; reflexivity).
  split; [by repeat split|].
  exact (significance_filter_monotone example_rows _ _ _ _ _ _
           H1 H2 H3 H4 H5).
Defined.

Lemma negative_nsig_is_no_filter_witness :
  (NoDup (columns example_feats) ∧ NoDup (columns example_target) ∧
   (-1 ≤ 0)%Z) ∧
  CrossAssociation.cross_association_table (L := example_libraries)
    (CrossAssociation.AFrame example_feats) example_target "pearson" None
    (15 # 100)%Q "fdr_bh" (-1)
  = CrossAssociation.cross_association_table (L := example_libraries)
      (CrossAssociation.AFrame example_feats) example_target "pearson" None
      (15 # 100)%Q "fdr_bh" 0.
Proof.
  assert (H1 : NoDup (columns example_feats))
    by (apply (bool_decide_unpack _); vm_compute; exact I).
  assert (H2 : NoDup (columns example_target))
    by (apply (bool_decide_unpack _); vm_compute; exact I).
  assert (H3 : (-1 ≤ 0)%Z) by discriminate.
  split; [by repeat split|].
  exact (negative_nsig_is_no_filter (L := example_libraries) example_feats
           example_target "pearson" None (15 # 100)%Q "fdr_bh" (-1)
           H1 H2 H3).
Defined.


Lemma positive_nsig_without_significant_pair_empties_the_table_witness :
  (NoDup (columns example_feats) ∧ NoDup (columns example_target) ∧
   (0 < 1)%Z) ∧
  CrossAssociation.cross_association_table (L := example_libraries)
    (CrossAssociation.AFrame example_feats) example_target "pearson" None
    (1 # 100)%Q "fdr_bh" 1
  = Ok {| header := ["taxon"; "target"; "corr"; "pval"; "adjp"];
          body := [] |}.
Proof.
  assert (H1 : NoDup (columns example_feats))
    by (apply (bool_decide_unpack _); vm_compute; exact I).
  assert (H2 : NoDup (columns example_target))
    by (apply (bool_decide_unpack _); vm_compute; exact I).
  assert (H3 : (0 < 1)%Z) by reflexivity.
  split; [by repeat split|].
  eapply (positive_nsig_without_significant_pair_empties_the_table
            (L := example_libraries) example_feats example_target "pearson"
            None (1 # 100)%Q "fdr_bh" 1 _ H1 H2 H3).
  - vm_compute. reflexivity.
  - intros r Hr. cbn in Hr.
    rewrite !elem_of_cons, elem_of_nil in Hr.
    destruct Hr as [->|[->|[]]]; intros Hle; by apply Hle.
Defined.

Lemma filtered_table_rows_are_unfiltered_rows_witness :
  ∃ T T0,
    CrossAssociation.cross_association_table (L := example_libraries)
      (CrossAssociation.AFrame example_feats) example_target "pearson" None
      (25 # 100)%Q "fdr_bh" 1 = Ok T ∧
    CrossAssociation.cross_association_table (L := example_libraries)
      (CrossAssociation.AFrame example_feats) example_target "pearson" None
      (25 # 100)%Q "fdr_bh" 0 = Ok T0 ∧
    length (body T) ≤ length (body T0).
Proof.
  eexists.
  assert (H : CrossAssociation.cross_association_table
                (L := example_libraries)
                (CrossAssociation.AFrame example_feats) example_target
                "pearson" None (25 # 100)%Q "fdr_bh" 1 = Ok _)
    by (vm_compute; reflexivity).
  destruct (filtered_table_rows_are_unfiltered_rows (L := example_libraries)
              _ _ _ _ _ _ _ _ H) as (T0 & HT0 & Hlen & _).
  exists T0. by repeat split.
Defined.

Lemma table_row_is_the_statistic_of_its_pair_witness :
  ∃ T r,
    CrossAssociation.cross_association_table (L := example_libraries)
      (CrossAssociation.AFrame example_feats) example_target "pearson" None
      (25 # 100)%Q "fdr_bh" 0 = Ok T ∧
    r ∈ (body T).*2 ∧
    ∃ f x y,
      CrossAssociation.methods_getitem (L := example_libraries) "pearson"
        = Ok f ∧
      f x y = Ok (corr r, pval r).
Proof.
  eexists _, _.
  assert (H : CrossAssociation.cross_association_table
                (L := example_libraries)
                (CrossAssociation.AFrame example_feats) example_target
                "pearson" None (25 # 100)%Q "fdr_bh" 0 = Ok _)
    by (vm_compute; reflexivity).
  split; [exact H|]. split; [left|].
  destruct (table_row_is_the_statistic_of_its_pair (L := example_libraries)
              _ _ _ _ _ _ _ _ _ H (list_elem_of_here _ _))
    as (feats0 & feats & f & x & y & _ & _ & Hf & _ & _ & Hfxy).
  by exists f, x, y.
Defined.

Lemma table_adjp_between_pval_and_one_witness :
  ∃ T r,
    CrossAssociation.cross_association_table (L := example_libraries)
      (CrossAssociation.AFrame example_feats) example_target "pearson" None
      (25 # 100)%Q "fdr_bh" 0 = Ok T ∧
    r ∈ (body T).*2 ∧ (pval r <= adjp r ∧ adjp r <= 1)%Q.
Proof.
  eexists _, _.
  assert (H : CrossAssociation.cross_association_table
                (L := example_libraries)
                (CrossAssociation.AFrame example_feats) example_target
                "pearson" None (25 # 100)%Q "fdr_bh" 0 = Ok _)
    by (vm_compute; reflexivity).
  split; [exact H|]. split; [left|].
  exact (table_adjp_between_pval_and_one (L := example_libraries)
           _ _ _ _ _ _ _ _ example_statistics_in_unit H
           (list_elem_of_here _ _)).
Defined.

Lemma heatmap_grid_is_the_transposed_table_witness :
  (NoDup (columns example_feats) ∧ NoDup (columns example_target)) ∧
  ∃ call,
    CrossAssociation.cross_association_heatmap (L := example_libraries)
      (CrossAssociation.AFrame example_feats) example_target "pearson" None
      (25 # 100)%Q "fdr_bh" 0 true = Ok call ∧
    is_Some (CrossAssociation.annot call).
Proof.
  assert (H1 : NoDup (columns example_feats))
    by (apply (bool_decide_unpack _); vm_compute; exact I).
  assert (H2 : NoDup (columns example_target))
    by (apply (bool_decide_unpack _); vm_compute; exact I).
  split; [by split|].
  assert (H : CrossAssociation.cross_association_table
                (L := example_libraries)
                (CrossAssociation.AFrame example_feats) example_target
                "pearson" None (25 # 100)%Q "fdr_bh" 0 = Ok _)
    by (vm_compute; reflexivity).
  destruct (heatmap_grid_is_the_transposed_table (L := example_libraries)
              example_feats example_target "pearson" None (25 # 100)%Q
              "fdr_bh" 0 true _ H1 H2 H)
    as (call & Hcall & _ & _ & _ & Hannot).
  exists call. split; [exact Hcall|]. by apply Hannot.
Defined.

Lemma heatmap_marker_of_row_witness :
  NoDup (pair_of <$> example_rows) ∧
  ∃ call ann,
    CrossAssociation.heatmap_grids
      {| header := []; body := example_rows |} (5 # 100)%Q true = Ok call ∧
    CrossAssociation.annot call = Some ann.
Proof.
  assert (H : NoDup (pair_of <$> example_rows))
    by (apply (bool_decide_unpack _); vm_compute; exact I).
  split; [exact H|].
  destruct (heatmap_marker_of_row {| header := []; body := example_rows |}
              (5 # 100)%Q H) as (call & ann & Hcall & Hann & _).
  by exists call, ann.
Defined.
